(** * bull-bear-api: the game session state machine of [api/index.py]

    A shallow embedding of the Flask handlers of [api/index.py] and the
    properties of the trading game they implement.

    Conventions of the embedding.
    - Python numbers ([int] and [float]) that take part in money and time
      arithmetic are exact rationals [Q]: the rounding of binary64
      arithmetic is not modelled. Values the code keeps as [int] (round
      counters, the timer, risk scores, sentiment) are [Z]. Numeric
      equality is [Qeq] ([==]), as Python's [==] on numbers.
    - A Python dict with a fixed set of keys is a record; a list is a list;
      the two process-wide dicts [game_states] and [game_locks] are a
      [gmap] and a [gset] keyed by the game id.
    - [time.time()] and [random.random()] are inputs of the function that
      calls them; a handler that mutates the shared state and then raises
      returns the mutated state together with the exception. *)

From Stdlib Require Import ZArith QArith Qround Lqa Lia.
From Stdlib Require Import List String Ascii Bool Permutation Sorted.
From Stdlib Require Import DecimalString DecimalZ DecimalPos.
From stdpp Require Import base gmap strings.

Import ListNotations.
Local Open Scope Z_scope.
Local Open Scope Q_scope.
Local Open Scope string_scope.
Local Open Scope list_scope.

(** ** Python numerics *)

Module Py.

(** [int(x)] on a float: truncation toward zero. *)
Definition int (x : Q) : Z := Z.quot (Qnum x) (Zpos (Qden x)).

(** [round(x)] with one argument: the nearest integer, ties go to the
    even neighbour. *)
Definition round (x : Q) : Z :=
  let f := Qfloor x in
  match Qcompare (x - inject_Z f) (1 # 2) with
  | Lt => f
  | Gt => (f + 1)%Z
  | Eq => if Z.even f then f else (f + 1)%Z
  end.

(** [str(n)] for an integer. *)
Definition str (n : Z) : string := NilZero.string_of_int (Z.to_int n).

(** Truthiness of a number ([if x:]). *)
Definition truthy (x : Q) : bool := negb (Qeq_bool x 0).

(** [next((x for x in l if p(x)), None)] is [List.find p l]; the dict it
    returns is shared with the list, so a write through it is an update
    of the first matching element. *)
Fixpoint update_first {A : Type} (p : A -> bool) (f : A -> A) (l : list A)
  : list A :=
  match l with
  | [] => []
  | x :: r => if p x then f x :: r else x :: update_first p f r
  end.

(** [len(set(l))] for strings. *)
Definition count_distinct (l : list string) : nat :=
  List.length (List.nodup string_dec l).

End Py.

(** ** Constants *)

Definition GAME_ROUNDS : Z := 5.
Definition ROUND_DURATION_MS : Z := 35000.
Definition STARTING_CASH : Q := 10000.
Definition TOTAL_FRAMES : Z := 35.

(** ** Data model *)

Inductive asset_type := STOCK | CRYPTO | BOND | ETF.

Inductive trend_bias := UP | DOWN | SIDEWAYS.

Inductive game_phase := PRE_MATCH | PLAYING | FINISHED.

Inductive trade_type := BUY | SELL.

Definition asset_type_eqb (a b : asset_type) : bool :=
  match a, b with
  | STOCK, STOCK | CRYPTO, CRYPTO | BOND, BOND | ETF, ETF => true
  | _, _ => false
  end.

Definition phase_eqb (a b : game_phase) : bool :=
  match a, b with
  | PRE_MATCH, PRE_MATCH | PLAYING, PLAYING | FINISHED, FINISHED => true
  | _, _ => false
  end.

Record Asset := mkAsset {
  a_id : string;
  a_name : string;
  a_type : asset_type;
  baseVolatility : Q;
  trendBias : trend_bias;
  currentPrice : Q;
  history : list Q
}.

Record Holding := mkHolding {
  assetId : string;
  quantity : Q;
  avgBuyPrice : Q
}.

Record Transaction := mkTransaction {
  t_round : Z;
  t_type : trade_type;
  t_assetId : string;
  t_assetType : asset_type;
  t_amount : Q;
  t_price : Q;
  t_totalValue : Q;
  eventActive : option string;
  sentimentAtTime : Z
}.

Record PowerUp := mkPowerUp {
  pu_id : string;
  pu_name : string;
  pu_description : string;
  usesLeft : Z
}.

Record Player := mkPlayer {
  p_id : string;
  p_name : string;
  cash : Q;
  holdings : list Holding;
  riskScore : Z;
  powerUps : list PowerUp;
  totalValue : Q;
  ready : bool;
  transactionLog : list Transaction;
  avatarId : option string;
  strategyId : option string
}.

(** The code never builds an event; its shape is the one [update_prices]
    and the trade handlers read: an id, an optional per-type impact map and
    an optional volatility multiplier. *)
Record MarketEvent := mkMarketEvent {
  ev_id : string;
  ev_impact : option (list (asset_type * Q));
  ev_volatility_multiplier : option Q
}.

Record Scenario := mkScenario {
  sc_id : string;
  sc_title : string;
  sc_description : string;
  sc_effectDescription : string
}.

(** The [sentiment] dict: one integer per asset type. *)
Record Sentiment := mkSentiment {
  s_STOCK : Z;
  s_CRYPTO : Z;
  s_BOND : Z;
  s_ETF : Z
}.

Definition sentiment_get (s : Sentiment) (t : asset_type) : Z :=
  match t with
  | STOCK => s_STOCK s
  | CRYPTO => s_CRYPTO s
  | BOND => s_BOND s
  | ETF => s_ETF s
  end.

Record game_state := mkGame {
  g_id : string;
  players : list Player;
  assets : list Asset;
  currentRound : Z;
  maxRounds : Z;
  activeEvent : option MarketEvent;
  phase : game_phase;
  subPhase : string;
  timeRemaining : Z;
  activeAssetType : string;
  activeScenario : option Scenario;
  fearZoneActive : bool;
  sentiment : Sentiment;
  roundStartTime : option Q;
  lastUpdate : Q
}.

(** Field updates ([d["k"] = v]). *)

Definition set_players (v : list Player) (g : game_state) : game_state :=
  mkGame (g_id g) v (assets g) (currentRound g) (maxRounds g) (activeEvent g)
    (phase g) (subPhase g) (timeRemaining g) (activeAssetType g)
    (activeScenario g) (fearZoneActive g) (sentiment g) (roundStartTime g)
    (lastUpdate g).

Definition set_assets (v : list Asset) (g : game_state) : game_state :=
  mkGame (g_id g) (players g) v (currentRound g) (maxRounds g) (activeEvent g)
    (phase g) (subPhase g) (timeRemaining g) (activeAssetType g)
    (activeScenario g) (fearZoneActive g) (sentiment g) (roundStartTime g)
    (lastUpdate g).

Definition set_currentRound (v : Z) (g : game_state) : game_state :=
  mkGame (g_id g) (players g) (assets g) v (maxRounds g) (activeEvent g)
    (phase g) (subPhase g) (timeRemaining g) (activeAssetType g)
    (activeScenario g) (fearZoneActive g) (sentiment g) (roundStartTime g)
    (lastUpdate g).

Definition set_phase (v : game_phase) (g : game_state) : game_state :=
  mkGame (g_id g) (players g) (assets g) (currentRound g) (maxRounds g)
    (activeEvent g) v (subPhase g) (timeRemaining g) (activeAssetType g)
    (activeScenario g) (fearZoneActive g) (sentiment g) (roundStartTime g)
    (lastUpdate g).

Definition set_timeRemaining (v : Z) (g : game_state) : game_state :=
  mkGame (g_id g) (players g) (assets g) (currentRound g) (maxRounds g)
    (activeEvent g) (phase g) (subPhase g) v (activeAssetType g)
    (activeScenario g) (fearZoneActive g) (sentiment g) (roundStartTime g)
    (lastUpdate g).

Definition set_activeScenario (v : option Scenario) (g : game_state)
  : game_state :=
  mkGame (g_id g) (players g) (assets g) (currentRound g) (maxRounds g)
    (activeEvent g) (phase g) (subPhase g) (timeRemaining g)
    (activeAssetType g) v (fearZoneActive g) (sentiment g) (roundStartTime g)
    (lastUpdate g).

Definition set_roundStartTime (v : option Q) (g : game_state) : game_state :=
  mkGame (g_id g) (players g) (assets g) (currentRound g) (maxRounds g)
    (activeEvent g) (phase g) (subPhase g) (timeRemaining g)
    (activeAssetType g) (activeScenario g) (fearZoneActive g) (sentiment g) v
    (lastUpdate g).

Definition set_lastUpdate (v : Q) (g : game_state) : game_state :=
  mkGame (g_id g) (players g) (assets g) (currentRound g) (maxRounds g)
    (activeEvent g) (phase g) (subPhase g) (timeRemaining g)
    (activeAssetType g) (activeScenario g) (fearZoneActive g) (sentiment g)
    (roundStartTime g) v.

Definition set_cash (v : Q) (p : Player) : Player :=
  mkPlayer (p_id p) (p_name p) v (holdings p) (riskScore p) (powerUps p)
    (totalValue p) (ready p) (transactionLog p) (avatarId p) (strategyId p).

Definition set_holdings (v : list Holding) (p : Player) : Player :=
  mkPlayer (p_id p) (p_name p) (cash p) v (riskScore p) (powerUps p)
    (totalValue p) (ready p) (transactionLog p) (avatarId p) (strategyId p).

Definition set_riskScore (v : Z) (p : Player) : Player :=
  mkPlayer (p_id p) (p_name p) (cash p) (holdings p) v (powerUps p)
    (totalValue p) (ready p) (transactionLog p) (avatarId p) (strategyId p).

Definition set_powerUps (v : list PowerUp) (p : Player) : Player :=
  mkPlayer (p_id p) (p_name p) (cash p) (holdings p) (riskScore p) v
    (totalValue p) (ready p) (transactionLog p) (avatarId p) (strategyId p).

Definition set_totalValue (v : Q) (p : Player) : Player :=
  mkPlayer (p_id p) (p_name p) (cash p) (holdings p) (riskScore p)
    (powerUps p) v (ready p) (transactionLog p) (avatarId p) (strategyId p).

Definition set_transactionLog (v : list Transaction) (p : Player) : Player :=
  mkPlayer (p_id p) (p_name p) (cash p) (holdings p) (riskScore p)
    (powerUps p) (totalValue p) (ready p) v (avatarId p) (strategyId p).

Definition set_avatarId (v : option string) (p : Player) : Player :=
  mkPlayer (p_id p) (p_name p) (cash p) (holdings p) (riskScore p)
    (powerUps p) (totalValue p) (ready p) (transactionLog p) v (strategyId p).

Definition set_strategyId (v : option string) (p : Player) : Player :=
  mkPlayer (p_id p) (p_name p) (cash p) (holdings p) (riskScore p)
    (powerUps p) (totalValue p) (ready p) (transactionLog p) (avatarId p) v.

Definition set_usesLeft (v : Z) (u : PowerUp) : PowerUp :=
  mkPowerUp (pu_id u) (pu_name u) (pu_description u) v.

(** ** Static data *)

Definition AAPL : Asset :=
  mkAsset "AAPL" "Apple Inc." STOCK (8 # 10) UP 150 [150].

Definition BTC : Asset :=
  mkAsset "BTC" "Bitcoin" CRYPTO (25 # 10) SIDEWAYS 45000 [45000].

Definition GOVT : Asset :=
  mkAsset "GOVT" "Government Bonds" BOND (3 # 10) SIDEWAYS 100 [100].

Definition SPY : Asset :=
  mkAsset "SPY" "S&P 500 ETF" ETF (6 # 10) UP 400 [400].

Definition INITIAL_ASSETS : list Asset := [AAPL; BTC; GOVT; SPY].

Definition SCENARIOS : list Scenario :=
  [ mkScenario "BULL_RUN" "Bull Market Rally" "Markets are soaring!"
      "Increased volatility";
    mkScenario "BEAR_CRASH" "Bear Market Crash" "Markets are plummeting!"
      "High risk environment";
    mkScenario "SIDEWAYS" "Sideways Market" "Markets are stable"
      "Low volatility" ].

(** ** Session and player construction *)

Definition create_new_game (now : Q) (game_id : string) : game_state :=
  {| g_id := game_id;
     players := [];
     assets := INITIAL_ASSETS;
     currentRound := 0;
     maxRounds := GAME_ROUNDS;
     activeEvent := None;
     phase := PRE_MATCH;
     subPhase := "INTRO";
     timeRemaining := 0;
     activeAssetType := "ALL";
     activeScenario := None;
     fearZoneActive := false;
     sentiment := mkSentiment 0 0 0 0;
     roundStartTime := None;
     lastUpdate := now |}.

Definition create_player (player_id name : string) : Player :=
  {| p_id := player_id;
     p_name := name;
     cash := STARTING_CASH;
     holdings := [];
     riskScore := 0;
     powerUps :=
       [ mkPowerUp "future-glimpse" "Risk Shield" "-20 Risk Score" 1;
         mkPowerUp "market-freeze" "Bailout" "+$1000 Cash" 1 ];
     totalValue := STARTING_CASH;
     ready := false;
     transactionLog := [];
     avatarId := None;
     strategyId := None |}.

(** The tests of the generator expressions: [a["id"] == asset_id],
    [p["id"] == player_id], [h["assetId"] == asset_id],
    [p["id"] == powerup_id]. *)
Definition is_asset (asset_id : string) (a : Asset) : bool :=
  String.eqb (a_id a) asset_id.

Definition is_player (player_id : string) (p : Player) : bool :=
  String.eqb (p_id p) player_id.

Definition holds (asset_id : string) (h : Holding) : bool :=
  String.eqb (assetId h) asset_id.

Definition has_powerup (powerup_id : string) (u : PowerUp) : bool :=
  String.eqb (pu_id u) powerup_id.

Definition find_asset (asset_id : string) (l : list Asset) : option Asset :=
  List.find (is_asset asset_id) l.

Definition find_player (player_id : string) (l : list Player)
  : option Player :=
  List.find (is_player player_id) l.

Definition find_holding (asset_id : string) (l : list Holding)
  : option Holding :=
  List.find (holds asset_id) l.

Definition has_strategy (p : Player) (s : string) : bool :=
  match strategyId p with
  | Some x => String.eqb x s
  | None => false
  end.

(** ** RiskScorer: [calculate_risk] *)

Definition Qltb (x y : Q) : bool := negb (Qle_bool y x).

(** The loop over the holdings: the pair [(total_risk,
    total_portfolio_value)] after one more holding. *)
Definition risk_step (assets : list Asset) (acc : Q * Q) (holding : Holding)
  : Q * Q :=
  match find_asset (assetId holding) assets with
  | Some asset =>
      let value := quantity holding * currentPrice asset in
      (fst acc + value * baseVolatility asset * 500, snd acc + value)
  | None => acc
  end.

Definition risk_totals (hs : list Holding) (assets : list Asset) : Q * Q :=
  List.fold_left (risk_step assets) hs (0, 0).

Definition calculate_risk (player : Player) (assets : list Asset) : Z :=
  let total_risk := fst (risk_totals (holdings player) assets) in
  let total_portfolio_value := snd (risk_totals (holdings player) assets) in
  if Qltb 0 total_portfolio_value then
    let risk_score :=
      Z.min 100 (Py.round (total_risk / total_portfolio_value * 100)) in
    if has_strategy player "SAFETY_FIRST"
    then Z.max 0 (risk_score - 10)
    else risk_score
  else 0%Z.

(** ** MarketEngine: [update_prices] *)

Definition impact_get (m : list (asset_type * Q)) (t : asset_type) : Q :=
  match List.find (fun kv => asset_type_eqb (fst kv) t) m with
  | Some kv => snd kv
  | None => 0
  end.

(** The "news impact" block: what [change] becomes. *)
Definition news_impact (ev : option MarketEvent) (t : asset_type) (change : Q)
  : Q :=
  match ev with
  | Some e =>
      match ev_impact e with
      | Some (kv :: m) =>
          let impact := impact_get (kv :: m) t in
          if Py.truthy impact
          then change + impact / inject_Z TOTAL_FRAMES
          else change
      | _ => change
      end
  | None => change
  end.

Definition vol_multiplier (ev : option MarketEvent) : Q :=
  match ev with
  | Some e =>
      match ev_volatility_multiplier e with
      | Some v => if Py.truthy v then v else 1
      | None => 1
      end
  | None => 1
  end.

Definition random_movement (ev : option MarketEvent) (r : Q) (asset : Asset)
  : Q :=
  (r - (1 # 2)) * (15 # 1000) * baseVolatility asset * vol_multiplier ev.

Definition sentiment_drift (s : Sentiment) (t : asset_type) : Q :=
  (inject_Z (sentiment_get s t) / 100) * ((5 # 100) / inject_Z TOTAL_FRAMES).

Definition price_change (ev : option MarketEvent) (s : Sentiment) (r : Q)
    (asset : Asset) : Q :=
  news_impact ev (a_type asset) 0
  + random_movement ev r asset
  + sentiment_drift s (a_type asset).

(** [history.append(p)] followed by [pop(0)] once the length passes 50. *)
Definition push_history (h : list Q) (p : Q) : list Q :=
  let h' := h ++ [p] in
  if (50 <? List.length h')%nat then List.tl h' else h'.

Definition update_asset (ev : option MarketEvent) (s : Sentiment) (r : Q)
    (asset : Asset) : Asset :=
  let price := currentPrice asset * (1 + price_change ev s r asset) in
  mkAsset (a_id asset) (a_name asset) (a_type asset) (baseVolatility asset)
    (trendBias asset) price (push_history (history asset) price).

(** One [random.random()] per asset, in list order: [rnd i] is the draw
    for the asset at position [i]. *)
Fixpoint update_assets (ev : option MarketEvent) (s : Sentiment)
    (rnd : nat -> Q) (i : nat) (l : list Asset) : list Asset :=
  match l with
  | [] => []
  | asset :: rest =>
      update_asset ev s (rnd i) asset :: update_assets ev s rnd (S i) rest
  end.

Definition holdings_value (hs : list Holding) (assets : list Asset) : Q :=
  List.fold_left
    (fun acc holding =>
       match find_asset (assetId holding) assets with
       | Some asset => acc + quantity holding * currentPrice asset
       | None => acc
       end) hs 0.

Definition revalue_player (assets : list Asset) (player : Player) : Player :=
  let player1 :=
    set_totalValue (cash player + holdings_value (holdings player) assets)
      player in
  set_riskScore (calculate_risk player1 assets) player1.

Definition update_prices (rnd : nat -> Q) (gs : game_state) : game_state :=
  let gs1 :=
    set_assets
      (update_assets (activeEvent gs) (sentiment gs) rnd 0 (assets gs)) gs in
  set_players (List.map (revalue_player (assets gs1)) (players gs1)) gs1.

(** ** Outcomes of a request *)

Inductive error :=
  | NameRequired          (* 400 "Name is required" *)
  | InvalidRequest        (* 400 "Invalid request" *)
  | InsufficientFunds     (* 400 "Insufficient funds" *)
  | InsufficientHoldings  (* 400 "Insufficient holdings" *)
  | PlayerNotFound        (* 404 "Player not found" *)
  | PowerUpUnavailable    (* 400 "Power-up not available" *)
  | NotReady.             (* 400 "Game not finished" *)

Inductive exn := ZeroDivisionError | KeyError.

Record ResultRecord := mkResult {
  r_playerId : string;
  r_playerName : string;
  finalValue : Q;
  r_riskScore : Z;
  roi : Q;
  riskAdjustedScore : Q;
  rank : Z
}.

Inductive outcome :=
  | Success                         (* 200, the game state *)
  | Joined (player_id : string)     (* 200, the player id and the state *)
  | Results (l : list ResultRecord) (* 200, the ranking *)
  | Failure (e : error)
  | Raised (x : exn).               (* uncaught exception: 500 *)

(** ** The handlers, on one session

    Each definition is the body of a handler once the session dict is at
    hand: what the handler reads from and writes to [game_state]. *)

Definition put_player (player_id : string) (player : Player) (gs : game_state)
  : game_state :=
  set_players
    (Py.update_first (is_player player_id) (fun _ => player) (players gs))
    gs.

Definition put_holding (asset_id : string) (holding : Holding)
    (player : Player) : Player :=
  set_holdings
    (Py.update_first (holds asset_id) (fun _ => holding) (holdings player))
    player.

Definition log_transaction (t : Transaction) (player : Player) : Player :=
  set_transactionLog (transactionLog player ++ [t]) player.

Definition event_id (ev : option MarketEvent) : option string :=
  match ev with
  | Some e => Some (ev_id e)
  | None => None
  end.

Definition join_game_session (now_id now_upd : Q) (name : string)
    (gs : game_state) : outcome * game_state :=
  match List.find (fun p => String.eqb (p_name p) name) (players gs) with
  | Some existing_player =>
      (Joined (p_id existing_player), set_lastUpdate now_upd gs)
  | None =>
      let player_id :=
        ("player-" ++ Py.str (Z.of_nat (List.length (players gs))) ++ "-"
         ++ Py.str (Py.int now_id))%string in
      (Joined player_id,
       set_lastUpdate now_upd
         (set_players (players gs ++ [create_player player_id name]) gs))
  end.

(** [get_state] up to the round-end check: the timer, the price step and
    the local variable [time_remaining] ([None] when the [if] is not
    entered). No lock is held here. *)
Definition get_state_tick (now : Q) (rnd : nat -> Q) (gs : game_state)
  : option Z * game_state :=
  match roundStartTime gs with
  | Some start =>
      if phase_eqb (phase gs) PLAYING && Py.truthy start then
        let elapsed := now - start in
        let time_remaining := Z.max 0 (TOTAL_FRAMES - Py.int elapsed) in
        let gs1 := set_timeRemaining time_remaining gs in
        let gs2 :=
          if (time_remaining <? 30)%Z then update_prices rnd gs1 else gs1 in
        (Some time_remaining, gs2)
      else (None, gs)
  | None => (None, gs)
  end.

(** The block under [with game_locks[game_id]] in [get_state]. *)
Definition get_state_round_end (now : Q) (gs : game_state) : game_state :=
  if (currentRound gs <? maxRounds gs)%Z then
    set_timeRemaining TOTAL_FRAMES
      (set_roundStartTime (Some now)
         (set_currentRound (currentRound gs + 1) gs))
  else
    set_roundStartTime None (set_phase FINISHED gs).

Definition round_ended (time_remaining : option Z) : bool :=
  match time_remaining with
  | Some t => (t <=? 0)%Z
  | None => false
  end.

(** One whole [get_state] call, run without interruption. *)
Definition get_state_session (now now_adv : Q) (rnd : nat -> Q)
    (gs : game_state) : game_state :=
  let (time_remaining, gs1) := get_state_tick now rnd gs in
  if round_ended time_remaining then get_state_round_end now_adv gs1
  else gs1.

Definition start_game_session (now_start now_upd : Q) (pick : nat)
    (gs : game_state) : game_state :=
  if phase_eqb (phase gs) PRE_MATCH then
    set_lastUpdate now_upd
      (set_activeScenario
         (List.nth_error SCENARIOS (pick mod List.length SCENARIOS))
         (set_timeRemaining TOTAL_FRAMES
            (set_roundStartTime (Some now_start)
               (set_currentRound 1 (set_phase PLAYING gs)))))
  else gs.

Definition select_avatar_session (now : Q) (player_id : string)
    (avatar_id : option string) (gs : game_state) : game_state :=
  match find_player player_id (players gs) with
  | Some player =>
      set_lastUpdate now
        (put_player player_id (set_avatarId avatar_id player) gs)
  | None => gs
  end.

Definition select_strategy_session (now : Q) (player_id : string)
    (strategy_id : option string) (gs : game_state) : game_state :=
  match find_player player_id (players gs) with
  | Some player =>
      set_lastUpdate now
        (put_player player_id (set_strategyId strategy_id player) gs)
  | None => gs
  end.

(** *** PortfolioLedger: buy and sell *)

Definition set_quantity (v : Q) (h : Holding) : Holding :=
  mkHolding (assetId h) v (avgBuyPrice h).

Definition set_avgBuyPrice (v : Q) (h : Holding) : Holding :=
  mkHolding (assetId h) (quantity h) v.

Definition trade_record (gs : game_state) (ty : trade_type)
    (asset_id : string) (asset : Asset) (amount total : Q) : Transaction :=
  {| t_round := currentRound gs;
     t_type := ty;
     t_assetId := asset_id;
     t_assetType := a_type asset;
     t_amount := amount;
     t_price := currentPrice asset;
     t_totalValue := total;
     eventActive := event_id (activeEvent gs);
     sentimentAtTime := sentiment_get (sentiment gs) (a_type asset) |}.

Definition buy_asset_session (now : Q) (player_id asset_id : string)
    (amount : Q) (gs : game_state) : outcome * game_state :=
  match find_player player_id (players gs),
        find_asset asset_id (assets gs) with
  | Some player, Some asset =>
      if negb (phase_eqb (phase gs) PLAYING) then (Failure InvalidRequest, gs)
      else
        let cost := amount * currentPrice asset in
        if Qle_bool cost (cash player) then
          let player1 := set_cash (cash player - cost) player in
          match find_holding asset_id (holdings player1) with
          | Some holding =>
              let total_cost :=
                quantity holding * avgBuyPrice holding + cost in
              let holding1 :=
                set_quantity (quantity holding + amount) holding in
              if Qeq_bool (quantity holding1) 0 then
                (* [total_cost / holding["quantity"]] raises; the cash and
                   the quantity are already written *)
                (Raised ZeroDivisionError,
                 put_player player_id
                   (put_holding asset_id holding1 player1) gs)
              else
                let holding2 :=
                  set_avgBuyPrice (total_cost / quantity holding1) holding1 in
                let player2 := put_holding asset_id holding2 player1 in
                let player3 :=
                  log_transaction
                    (trade_record gs BUY asset_id asset amount cost) player2 in
                (Success, set_lastUpdate now (put_player player_id player3 gs))
          | None =>
              let player2 :=
                set_holdings
                  (holdings player1
                   ++ [mkHolding asset_id amount (currentPrice asset)])
                  player1 in
              let player3 :=
                log_transaction
                  (trade_record gs BUY asset_id asset amount cost) player2 in
              (Success, set_lastUpdate now (put_player player_id player3 gs))
          end
        else (Failure InsufficientFunds, gs)
  | _, _ => (Failure InvalidRequest, gs)
  end.

Definition sell_asset_session (now : Q) (player_id asset_id : string)
    (amount : Q) (gs : game_state) : outcome * game_state :=
  match find_player player_id (players gs),
        find_asset asset_id (assets gs) with
  | Some player, Some asset =>
      if negb (phase_eqb (phase gs) PLAYING) then (Failure InvalidRequest, gs)
      else
        match find_holding asset_id (holdings player) with
        | Some holding =>
            if Qle_bool amount (quantity holding) then
              let revenue := amount * currentPrice asset in
              let player1 := set_cash (cash player + revenue) player in
              let holding1 :=
                set_quantity (quantity holding - amount) holding in
              let player2 := put_holding asset_id holding1 player1 in
              let player3 :=
                if Qle_bool (quantity holding1) 0 then
                  set_holdings
                    (List.filter (fun h => negb (holds asset_id h))
                       (holdings player2)) player2
                else player2 in
              let player4 :=
                log_transaction
                  (trade_record gs SELL asset_id asset amount revenue)
                  player3 in
              (Success, set_lastUpdate now (put_player player_id player4 gs))
            else (Failure InsufficientHoldings, gs)
        | None => (Failure InsufficientHoldings, gs)
        end
  | _, _ => (Failure InvalidRequest, gs)
  end.

Definition use_powerup_session (now : Q) (player_id powerup_id : string)
    (gs : game_state) : outcome * game_state :=
  match find_player player_id (players gs) with
  | None => (Failure PlayerNotFound, gs)
  | Some player =>
      match List.find (has_powerup powerup_id) (powerUps player) with
      | None => (Failure PowerUpUnavailable, gs)
      | Some powerup =>
          if (usesLeft powerup <=? 0)%Z then (Failure PowerUpUnavailable, gs)
          else
            let player1 :=
              set_powerUps
                (Py.update_first (has_powerup powerup_id)
                   (fun u => set_usesLeft (usesLeft u - 1) u)
                   (powerUps player)) player in
            let player2 :=
              if String.eqb powerup_id "future-glimpse" then
                set_riskScore (Z.max 0 (riskScore player1 - 20)) player1
              else if String.eqb powerup_id "market-freeze" then
                set_cash (cash player1 + 1000) player1
              else player1 in
            (Success, set_lastUpdate now (put_player player_id player2 gs))
      end
  end.

(** *** ResultsCalculator *)

Definition result_of (player : Player) : ResultRecord :=
  let initial_value := STARTING_CASH in
  let final_value := totalValue player in
  let final_value :=
    if has_strategy player "DIVERSIFIER" then
      let unique_assets :=
        Py.count_distinct (List.map assetId (holdings player)) in
      if (4 <=? unique_assets)%nat
      then final_value + final_value * (5 # 100)
      else final_value
    else final_value in
  let roi := ((final_value - initial_value) / initial_value) * 100 in
  let risk_adjusted_score := roi - inject_Z (riskScore player) * (1 # 2) in
  {| r_playerId := p_id player;
     r_playerName := p_name player;
     finalValue := final_value;
     r_riskScore := riskScore player;
     roi := roi;
     riskAdjustedScore := risk_adjusted_score;
     rank := 0 |}.

(** [results.sort(key=..., reverse=True)]: Python's sort is stable, also
    with [reverse=True], so the result is the one stable arrangement in
    descending key order. It is computed here by insertion: an element goes
    in front of the first one whose key is not greater than its own. *)
Fixpoint insert_desc (x : ResultRecord) (l : list ResultRecord)
  : list ResultRecord :=
  match l with
  | [] => [x]
  | y :: r =>
      if Qltb (riskAdjustedScore x) (riskAdjustedScore y)
      then y :: insert_desc x r
      else x :: y :: r
  end.

Definition sort_desc (l : list ResultRecord) : list ResultRecord :=
  List.fold_right insert_desc [] l.

Definition set_rank (v : Z) (r : ResultRecord) : ResultRecord :=
  mkResult (r_playerId r) (r_playerName r) (finalValue r) (r_riskScore r)
    (roi r) (riskAdjustedScore r) v.

(** [for i, result in enumerate(results): result["rank"] = i + 1] *)
Fixpoint assign_ranks (i : Z) (l : list ResultRecord) : list ResultRecord :=
  match l with
  | [] => []
  | r :: rest => set_rank (i + 1) r :: assign_ranks (i + 1) rest
  end.

Definition get_results_session (gs : game_state) : outcome :=
  if negb (phase_eqb (phase gs) FINISHED) then Failure NotReady
  else
    Results (assign_ranks 0 (sort_desc (List.map result_of (players gs)))).

(** ** SessionRegistry: the two process-wide dicts *)

Record registry := mkRegistry {
  game_states : gmap string game_state;
  game_locks : gset string
}.

Definition empty_registry : registry := mkRegistry ∅ ∅.

Definition get_game_state (now : Q) (game_id : string) (r : registry)
  : game_state * registry :=
  match game_states r !! game_id with
  | Some gs => (gs, r)
  | None =>
      let gs := create_new_game now game_id in
      (gs,
       mkRegistry (<[game_id := gs]> (game_states r))
         ({[game_id]} ∪ game_locks r))
  end.

(** The session dict is shared with the registry: a write through the
    reference the handler holds is a write to [game_states[game_id]]. *)
Definition store (game_id : string) (gs : game_state) (r : registry)
  : registry :=
  mkRegistry (<[game_id := gs]> (game_states r)) (game_locks r).

(** What a request reads from outside: the readings of [time.time()] in
    the order of the call sites, the draws of [random.random()], and the
    index [random.choice] picks. *)
Record env := mkEnv {
  clock : nat -> Q;
  rnd : nat -> Q;
  pick : nat
}.

(** [with game_locks[game_id]: body], run alone: a [KeyError] when the
    session has no lock, else the body on the session. *)
Definition with_lock (game_id : string) (gs : game_state) (r : registry)
    (body : game_state -> outcome * game_state) : outcome * registry :=
  if decide (game_id ∈ game_locks r) then
    let (o, gs') := body gs in (o, store game_id gs' r)
  else (Raised KeyError, r).

Definition join_game (e : env) (name game_id : string) (r : registry)
  : outcome * registry :=
  if String.eqb name "" then (Failure NameRequired, r)
  else
    let (gs, r1) := get_game_state (clock e 0) game_id r in
    with_lock game_id gs r1 (join_game_session (clock e 1) (clock e 2) name).

Definition get_state (e : env) (game_id : string) (r : registry)
  : outcome * registry :=
  let (gs, r1) := get_game_state (clock e 0) game_id r in
  let (time_remaining, gs1) := get_state_tick (clock e 1) (rnd e) gs in
  let r2 := store game_id gs1 r1 in
  if round_ended time_remaining then
    with_lock game_id gs1 r2
      (fun g => (Success, get_state_round_end (clock e 2) g))
  else (Success, r2).

Definition start_game (e : env) (game_id : string) (r : registry)
  : outcome * registry :=
  let (gs, r1) := get_game_state (clock e 0) game_id r in
  with_lock game_id gs r1
    (fun g => (Success, start_game_session (clock e 1) (clock e 2) (pick e) g)).

Definition select_avatar (e : env) (player_id : string)
    (avatar_id : option string) (game_id : string) (r : registry)
  : outcome * registry :=
  let (gs, r1) := get_game_state (clock e 0) game_id r in
  with_lock game_id gs r1
    (fun g => (Success, select_avatar_session (clock e 1) player_id avatar_id g)).

Definition select_strategy (e : env) (player_id : string)
    (strategy_id : option string) (game_id : string) (r : registry)
  : outcome * registry :=
  let (gs, r1) := get_game_state (clock e 0) game_id r in
  with_lock game_id gs r1
    (fun g =>
       (Success, select_strategy_session (clock e 1) player_id strategy_id g)).

Definition buy_asset (e : env) (player_id asset_id : string) (amount : Q)
    (game_id : string) (r : registry) : outcome * registry :=
  let (gs, r1) := get_game_state (clock e 0) game_id r in
  with_lock game_id gs r1
    (buy_asset_session (clock e 1) player_id asset_id amount).

Definition sell_asset (e : env) (player_id asset_id : string) (amount : Q)
    (game_id : string) (r : registry) : outcome * registry :=
  let (gs, r1) := get_game_state (clock e 0) game_id r in
  with_lock game_id gs r1
    (sell_asset_session (clock e 1) player_id asset_id amount).

Definition use_powerup (e : env) (player_id powerup_id game_id : string)
    (r : registry) : outcome * registry :=
  let (gs, r1) := get_game_state (clock e 0) game_id r in
  with_lock game_id gs r1
    (use_powerup_session (clock e 1) player_id powerup_id).

(** [game_locks.get(game_id, threading.Lock())] never fails and adds no
    lock to [game_locks]. *)
Definition reset_game (e : env) (game_id : string) (r : registry)
  : outcome * registry :=
  (Success, store game_id (create_new_game (clock e 0) game_id) r).

Definition get_results (e : env) (game_id : string) (r : registry)
  : outcome * registry :=
  let (gs, r1) := get_game_state (clock e 0) game_id r in
  (get_results_session gs, r1).

(** ** The public operations as requests *)

Inductive request :=
  | Join (name game_id : string)
  | GetState (game_id : string)
  | Start (game_id : string)
  | SelectAvatar (player_id : string) (avatar_id : option string)
      (game_id : string)
  | SelectStrategy (player_id : string) (strategy_id : option string)
      (game_id : string)
  | Buy (player_id asset_id : string) (amount : Q) (game_id : string)
  | Sell (player_id asset_id : string) (amount : Q) (game_id : string)
  | UsePowerUp (player_id powerup_id game_id : string)
  | Reset (game_id : string)
  | GetResults (game_id : string).

Definition handle (e : env) (q : request) (r : registry)
  : outcome * registry :=
  match q with
  | Join name game_id => join_game e name game_id r
  | GetState game_id => get_state e game_id r
  | Start game_id => start_game e game_id r
  | SelectAvatar player_id avatar_id game_id =>
      select_avatar e player_id avatar_id game_id r
  | SelectStrategy player_id strategy_id game_id =>
      select_strategy e player_id strategy_id game_id r
  | Buy player_id asset_id amount game_id =>
      buy_asset e player_id asset_id amount game_id r
  | Sell player_id asset_id amount game_id =>
      sell_asset e player_id asset_id amount game_id r
  | UsePowerUp player_id powerup_id game_id =>
      use_powerup e player_id powerup_id game_id r
  | Reset game_id => reset_game e game_id r
  | GetResults game_id => get_results e game_id r
  end.

(** [random.random()] draws from [0, 1). *)
Definition unit_draws (rnd : nat -> Q) : Prop :=
  forall i, 0 <= rnd i /\ rnd i < 1.

(** The registries a server can be in: the empty one at start-up, and the
    one left by any request served from a reachable one. *)
Inductive reachable : registry -> Prop :=
  | reachable_start : reachable empty_registry
  | reachable_request (e : env) (q : request) (r : registry) :
      unit_draws (rnd e) ->
      reachable r -> reachable (snd (handle e q r)).

(** Serving a list of requests one after the other. *)
Fixpoint serve (l : list (env * request)) (r : registry) : registry :=
  match l with
  | [] => r
  | (e, q) :: rest => serve rest (snd (handle e q r))
  end.

(** ** Concurrent [get_state] requests on one session

    The server runs one thread per request. A [get_state] thread runs the
    tick without the lock, then, when its local [time_remaining] is 0,
    takes the session lock, runs the round-end block and releases the
    lock. Threads are interleaved between these three points. *)

Module Concurrent.

Inductive pc :=
  | Entered   (* holds the session, nothing run yet *)
  | Waiting   (* ticked, saw [time_remaining <= 0], lock not yet taken *)
  | Locked    (* inside [with game_locks[game_id]] *)
  | Returned.

Record system := mkSystem {
  session : game_state;
  lock : option nat;       (* the thread holding the session lock *)
  threads : list pc
}.

Inductive action :=
  | Tick (now : Q) (rnd : nat -> Q)
  | Acquire
  | RoundEnd (now : Q).

Definition step (i : nat) (a : action) (s : system) : option system :=
  match threads s !! i, a with
  | Some Entered, Tick now rnd =>
      let (time_remaining, gs1) := get_state_tick now rnd (session s) in
      Some (mkSystem gs1 (lock s)
              (<[i := if round_ended time_remaining
                      then Waiting else Returned]> (threads s)))
  | Some Waiting, Acquire =>
      match lock s with
      | None => Some (mkSystem (session s) (Some i)
                        (<[i := Locked]> (threads s)))
      | Some _ => None
      end
  | Some Locked, RoundEnd now =>
      Some (mkSystem (get_state_round_end now (session s)) None
              (<[i := Returned]> (threads s)))
  | _, _ => None
  end.

Fixpoint run (sched : list (nat * action)) (s : system) : option system :=
  match sched with
  | [] => Some s
  | (i, a) :: rest =>
      match step i a s with
      | Some s' => run rest s'
      | None => None
      end
  end.

(** [n] requests arrive together. *)
Definition arrive (n : nat) (gs : game_state) : system :=
  mkSystem gs None (replicate n Entered).

(** Every thread ticks at the boundary before any takes the lock; then
    each in turn takes the lock and runs the round-end block. *)
Definition all_tick (n : nat) (now : Q) (rnd : nat -> Q)
  : list (nat * action) :=
  List.map (fun i => (i, Tick now rnd)) (List.seq 0 n).

Definition all_advance (n : nat) (now : Q) : list (nat * action) :=
  List.flat_map (fun i => [(i, Acquire); (i, RoundEnd now)]) (List.seq 0 n).

Definition boundary_schedule (n : nat) (now now_adv : Q) (rnd : nat -> Q)
  : list (nat * action) :=
  all_tick n now rnd ++ all_advance n now_adv.




End Concurrent.


(** ** Properties of sessions used in the statements *)

(** The sessions a server can hold: a fresh one, or what a handler body
    leaves of a reachable one. *)
Inductive session_reachable : game_state -> Prop :=
  | sr_new now game_id : session_reachable (create_new_game now game_id)
  | sr_join now_id now_upd name gs :
      session_reachable gs ->
      session_reachable (snd (join_game_session now_id now_upd name gs))
  | sr_tick now rnd gs :
      unit_draws rnd ->
      session_reachable gs ->
      session_reachable (snd (get_state_tick now rnd gs))
  | sr_round_end now gs :
      session_reachable gs ->
      session_reachable (get_state_round_end now gs)
  | sr_start now_start now_upd pick gs :
      session_reachable gs ->
      session_reachable (start_game_session now_start now_upd pick gs)
  | sr_avatar now player_id avatar_id gs :
      session_reachable gs ->
      session_reachable (select_avatar_session now player_id avatar_id gs)
  | sr_strategy now player_id strategy_id gs :
      session_reachable gs ->
      session_reachable (select_strategy_session now player_id strategy_id gs)
  | sr_buy now player_id asset_id amount gs :
      session_reachable gs ->
      session_reachable
        (snd (buy_asset_session now player_id asset_id amount gs))
  | sr_sell now player_id asset_id amount gs :
      session_reachable gs ->
      session_reachable
        (snd (sell_asset_session now player_id asset_id amount gs))
  | sr_powerup now player_id powerup_id gs :
      session_reachable gs ->
      session_reachable (snd (use_powerup_session now player_id powerup_id gs)).

Definition history_bounded (gs : game_state) : Prop :=
  Forall (fun a => (List.length (history a) <= 50)%nat) (assets gs).

(** [update_prices] called once per element of [draws], in order. *)
Definition update_prices_each (draws : list (nat -> Q)) (gs : game_state)
  : game_state :=
  List.fold_left (fun g rnd => update_prices rnd g) draws gs.

(** A transaction record taken with no event and neutral sentiment. *)
Definition clean_record (t : Transaction) : Prop :=
  eventActive t = None /\ sentimentAtTime t = 0%Z.

Definition quiet (gs : game_state) : Prop :=
  activeEvent gs = None
  /\ (forall t, sentiment_get (sentiment gs) t = 0%Z)
  /\ Forall (fun p => Forall clean_record (transactionLog p)) (players gs).

Definition sessions_reachable (r : registry) : Prop :=
  forall game_id gs,
    game_states r !! game_id = Some gs -> session_reachable gs.

Definition log_clean (p : Player) : Prop :=
  Forall clean_record (transactionLog p).

(** ** The contracts in the words of the specification *)

(** Volume-weighted average price after adding [amount] at [price]. *)
Definition vwap (old_qty old_avg amount price : Q) : Q :=
  (old_qty * old_avg + amount * price) / (old_qty + amount).

(** Buy: update the holding of the asset, or create it. *)
Definition holdings_after_buy (asset_id : string) (amount price : Q)
    (hs : list Holding) : list Holding :=
  match find_holding asset_id hs with
  | Some _ =>
      Py.update_first (holds asset_id)
        (fun h =>
           mkHolding (assetId h) (quantity h + amount)
             (vwap (quantity h) (avgBuyPrice h) amount price)) hs
  | None => hs ++ [mkHolding asset_id amount price]
  end.

(** Sell: reduce the quantity, and remove the holding when it reaches 0;
    the average buy price is left as it is. *)
Definition holdings_after_sell (asset_id : string) (amount : Q)
    (hs : list Holding) : list Holding :=
  match find_holding asset_id hs with
  | Some held =>
      if Qeq_bool (quantity held - amount) 0 then
        List.filter (fun h => negb (holds asset_id h)) hs
      else
        Py.update_first (holds asset_id)
          (fun h => mkHolding (assetId h) (quantity h - amount)
                      (avgBuyPrice h)) hs
  | None => hs
  end.









Definition priced (assets : list Asset) : Prop :=
  Forall (fun a => 0 < currentPrice a /\ 0 <= baseVolatility a) assets.



(** ** Sample sessions *)

Definition demo_env (t : Q) : env := mkEnv (fun _ => t) (fun _ => 1 # 2) 0.

Definition session_of (r : registry) : game_state :=
  match game_states r !! "default" with
  | Some gs => gs
  | None => create_new_game 0 "default"
  end.

Definition first_player (gs : game_state) : Player :=
  List.hd (create_player "" "") (players gs).

(** Alice joins and the match starts at time 1000. *)
Definition demo_registry : registry :=
  serve [ (demo_env 1000, Join "Alice" "default");
          (demo_env 1000, Start "default") ] empty_registry.

Definition demo_session : game_state := session_of demo_registry.

(** Alice then buys 5 AAPL. *)
Definition traded_registry : registry :=
  serve [ (demo_env 1001, Buy "player-0-1000" "AAPL" 5 "default") ]
    demo_registry.

Definition traded_session : game_state := session_of traded_registry.



(** Alice and Bob play; Bob buys 10 SPY; the state is polled at the end of
    each of the five rounds. *)
Definition last_round_registry : registry :=
  serve [ (demo_env 1000, Join "Alice" "default");
          (demo_env 1000, Join "Bob" "default");
          (demo_env 1000, Start "default");
          (demo_env 1001, Buy "player-1-1000" "SPY" 10 "default");
          (demo_env 1035, GetState "default");
          (demo_env 1070, GetState "default");
          (demo_env 1105, GetState "default");
          (demo_env 1140, GetState "default") ]
    empty_registry.


Definition finished_registry : registry :=
  serve [ (demo_env 1175, GetState "default") ] last_round_registry.

Definition finished_session : game_state := session_of finished_registry.

(** The player after a successful buy or sell: cash, holdings and the
    transaction log change, nothing else does. *)
Definition after_buy (gs : game_state) (player : Player) (asset_id : string)
    (asset : Asset) (amount : Q) : Player :=
  {| p_id := p_id player;
     p_name := p_name player;
     cash := cash player - amount * currentPrice asset;
     holdings :=
       holdings_after_buy asset_id amount (currentPrice asset)
         (holdings player);
     riskScore := riskScore player;
     powerUps := powerUps player;
     totalValue := totalValue player;
     ready := ready player;
     transactionLog :=
       transactionLog player
       ++ [trade_record gs BUY asset_id asset amount
             (amount * currentPrice asset)];
     avatarId := avatarId player;
     strategyId := strategyId player |}.

Definition after_sell (gs : game_state) (player : Player) (asset_id : string)
    (asset : Asset) (amount : Q) : Player :=
  {| p_id := p_id player;
     p_name := p_name player;
     cash := cash player + amount * currentPrice asset;
     holdings := holdings_after_sell asset_id amount (holdings player);
     riskScore := riskScore player;
     powerUps := powerUps player;
     totalValue := totalValue player;
     ready := ready player;
     transactionLog :=
       transactionLog player
       ++ [trade_record gs SELL asset_id asset amount
             (amount * currentPrice asset)];
     avatarId := avatarId player;
     strategyId := strategyId player |}.

(** The player after a power-up was used: one use less, and the fixed
    effect of the two known power-ups. *)
Definition after_powerup (player : Player) (powerup_id : string) : Player :=
  let player1 :=
    set_powerUps
      (Py.update_first (has_powerup powerup_id)
         (fun u => set_usesLeft (usesLeft u - 1) u) (powerUps player))
      player in
  if String.eqb powerup_id "future-glimpse" then
    set_riskScore (Z.max 0 (riskScore player - 20)) player1
  else if String.eqb powerup_id "market-freeze" then
    set_cash (cash player + 1000) player1
  else player1.

(** The order of the phases. *)
Definition phase_rank (p : game_phase) : nat :=
  match p with
  | PRE_MATCH => 0
  | PLAYING => 1
  | FINISHED => 2
  end.

(** One step of a session: what one handler body makes of it. *)
Inductive session_step : game_state -> game_state -> Prop :=
  | step_join now_id now_upd name gs :
      session_step gs (snd (join_game_session now_id now_upd name gs))
  | step_tick now rnd gs :
      session_step gs (snd (get_state_tick now rnd gs))
  | step_round_end now gs :
      session_step gs (get_state_round_end now gs)
  | step_start now_start now_upd pick gs :
      session_step gs (start_game_session now_start now_upd pick gs)
  | step_avatar now player_id avatar_id gs :
      session_step gs (select_avatar_session now player_id avatar_id gs)
  | step_strategy now player_id strategy_id gs :
      session_step gs (select_strategy_session now player_id strategy_id gs)
  | step_buy now player_id asset_id amount gs :
      session_step gs
        (snd (buy_asset_session now player_id asset_id amount gs))
  | step_sell now player_id asset_id amount gs :
      session_step gs
        (snd (sell_asset_session now player_id asset_id amount gs))
  | step_powerup now player_id powerup_id gs :
      session_step gs (snd (use_powerup_session now player_id powerup_id gs)).

(** At most one holding per asset, for every player. *)
Definition one_holding_per_asset (gs : game_state) : Prop :=
  Forall (fun p => List.NoDup (List.map assetId (holdings p))) (players gs).

(** Prices are positive and volatilities are those of the catalog, which
    lie in [0, 5/2]. *)
Definition market_sane (gs : game_state) : Prop :=
  Forall (fun a => 0 < currentPrice a
                   /\ 0 <= baseVolatility a /\ baseVolatility a <= 5 # 2)
    (assets gs).

(** The round counter stays within the match. *)
Definition round_in_range (gs : game_state) : Prop :=
  maxRounds gs = GAME_ROUNDS
  /\ (0 <= currentRound gs <= maxRounds gs)%Z.

(** What is left when the average-price division of a buy raises: the cash
    and the quantity are written, the average price and the log are not. *)
Definition after_failed_buy (player : Player) (asset_id : string)
    (asset : Asset) (amount : Q) : Player :=
  set_holdings
    (Py.update_first (holds asset_id)
       (fun h => set_quantity (quantity h + amount) h) (holdings player))
    (set_cash (cash player - amount * currentPrice asset) player).

(** ** Further notions used in the statements *)


(** The fields of an asset that no handler writes. *)
Definition asset_static (a : Asset)
  : string * string * asset_type * Q * trend_bias :=
  (a_id a, a_name a, a_type a, baseVolatility a, trendBias a).

(** The session trades the four assets of the catalog, in its order. *)
Definition catalog_kept (gs : game_state) : Prop :=
  List.map asset_static (assets gs) = List.map asset_static INITIAL_ASSETS.

(** The last entry of every price history is the current price. *)
Definition history_tracks_price (gs : game_state) : Prop :=
  Forall (fun a => List.last (history a) 0 = currentPrice a) (assets gs).

(** What a step may do to a power-up and to a player: the ids and the
    name stay, the uses left do not go up, the transaction log is
    extended at its end. *)
Definition powerup_kept (u u' : PowerUp) : Prop :=
  pu_id u' = pu_id u /\ (usesLeft u' <= usesLeft u)%Z.

Definition player_kept (p p' : Player) : Prop :=
  p_id p' = p_id p
  /\ p_name p' = p_name p
  /\ (exists more, transactionLog p' = transactionLog p ++ more)
  /\ Forall2 powerup_kept (powerUps p) (powerUps p').

(** The players of [l] are all in [l'], at the same positions. *)
Definition players_kept (l l' : list Player) : Prop :=
  exists l1 l2, l' = l1 ++ l2 /\ Forall2 player_kept l l1.

(** The id [join_game] makes for the player at position [k]. *)
Definition issued_at (k : nat) (id : string) : Prop :=
  exists t : Z,
    id = ("player-" ++ Py.str (Z.of_nat k) ++ "-" ++ Py.str t)%string.

Fixpoint issued_from (k : nat) (ids : list string) : Prop :=
  match ids with
  | [] => True
  | id :: rest => issued_at k id /\ issued_from (S k) rest
  end.

(** No power-up has more than one use left. *)
Definition single_use (p : Player) : Prop :=
  Forall (fun u => (usesLeft u <= 1)%Z) (powerUps p).

(** A string without the character [-]. *)
Fixpoint no_dash (s : string) : Prop :=
  match s with
  | EmptyString => True
  | String c rest => c <> "-"%char /\ no_dash rest
  end.

(** The players of a session are well formed: the ids are the ones
    [join_game] makes, in order; no name is taken twice; no power-up has
    more than one use left. *)
Definition players_wf (gs : game_state) : Prop :=
  issued_from 0 (List.map p_id (players gs))
  /\ List.NoDup (List.map p_name (players gs))
  /\ Forall single_use (players gs).

(** ** The registry under requests *)

(** The game id a request is about. *)
Definition request_game (q : request) : string :=
  match q with
  | Join _ game_id
  | GetState game_id
  | Start game_id
  | SelectAvatar _ _ game_id
  | SelectStrategy _ _ game_id
  | Buy _ _ _ game_id
  | Sell _ _ _ game_id
  | UsePowerUp _ _ game_id
  | Reset game_id
  | GetResults game_id => game_id
  end.

(** The requests whose handler always reaches [with game_locks[game_id]]:
    all but a join without a name, [get_state] (which takes the lock only
    at the end of a round), [reset_game] (which falls back to a lock of
    its own) and [get_results]. *)
Definition always_locks (q : request) : bool :=
  match q with
  | Join name _ => negb (String.eqb name "")
  | GetState _ | Reset _ | GetResults _ => false
  | _ => true
  end.

(** Every lock belongs to a session, and a session without a lock is a
    fresh one (it was put there by [reset_game]). *)
Definition registry_wf (r : registry) : Prop :=
  (forall game_id,
     game_id ∈ game_locks r -> is_Some (game_states r !! game_id))
  /\ (forall game_id gs,
        game_states r !! game_id = Some gs -> (game_id ∉ game_locks r) ->
        exists t, gs = create_new_game t game_id).

(** ** After the match *)

(** What no step changes of a player once the match is finished. *)
Definition player_frozen (p p' : Player) : Prop :=
  p_id p' = p_id p
  /\ holdings p' = holdings p
  /\ totalValue p' = totalValue p
  /\ transactionLog p' = transactionLog p.

Definition session_frozen (gs gs' : game_state) : Prop :=
  phase gs' = FINISHED
  /\ assets gs' = assets gs
  /\ exists l1 l2,
       players gs' = l1 ++ l2 /\ Forall2 player_frozen (players gs) l1.

(** ** The books *)

Definition catalog_ids : list string := List.map a_id INITIAL_ASSETS.

(** A record of a trade as it can have taken place: the total is the
    amount times the price, the price is positive, the round is one of
    the match, and the asset is one of the catalog, logged with its
    type. *)
Definition record_sound (t : Transaction) : Prop :=
  t_totalValue t = t_amount t * t_price t
  /\ 0 < t_price t
  /\ (1 <= t_round t <= GAME_ROUNDS)%Z
  /\ exists a,
       In a INITIAL_ASSETS
       /\ a_id a = t_assetId t /\ a_type a = t_assetType t.

(** The books of a player: every record is sound and every holding is of
    a catalog asset. *)
Definition books_sound (p : Player) : Prop :=
  Forall record_sound (transactionLog p)
  /\ Forall (fun h => In (assetId h) catalog_ids) (holdings p).

(** A change made to the players with a given id, and to no other. *)
Definition on_player (player_id : string) (f : Player -> Player)
    (l : list Player) : list Player :=
  List.map (fun p => if is_player player_id p then f p else p) l.

(** * Lists updated through a shared element *)

Section UpdateFirst.

Context {A : Type} (p : A -> bool) (f : A -> A).

Lemma update_first_Forall (P : A -> Prop) (l : list A) :
  Forall P l -> (forall x, In x l -> P x -> P (f x)) ->
  Forall P (Py.update_first p f l).
Proof.
  induction 1 as [|x l Hx Hl IH]; simpl; intros Hf; [constructor|].
  destruct (p x).
  - constructor; [apply Hf; auto|assumption].
  - constructor; [assumption|]. apply IH. intros y Hy. apply Hf. auto.
Qed.

(** Reading back through the same key finds the written element, when the
    write keeps the key. *)
Lemma find_update_first (l : list A) (x : A) :
  List.find p l = Some x -> p (f x) = true ->
  List.find p (Py.update_first p f l) = Some (f x).
Proof.
  induction l as [|y l IH]; simpl; [discriminate|].
  destruct (p y) eqn:Hy; simpl.
  - intros [= ->] Hfx. rewrite Hfx. reflexivity.
  - intros Hfind Hfx. rewrite Hy. auto.
Qed.

End UpdateFirst.

(** * Asset histories stay bounded *)

Lemma push_history_length (h : list Q) (p : Q) :
  (List.length h <= 50)%nat -> (List.length (push_history h p) <= 50)%nat.
Proof.
  intros Hh. unfold push_history.
  assert (Hlen : List.length (h ++ [p]) = S (List.length h))
    by (rewrite length_app; simpl; lia).
  destruct (50 <? List.length (h ++ [p]))%nat eqn:Hfull.
  - destruct (h ++ [p]) as [|x t]; simpl in *; lia.
  - apply Nat.ltb_ge in Hfull. exact Hfull.
Qed.

(** What one push does: the new price goes last, and a full history drops
    its oldest entry. *)
Lemma push_history_shape (h : list Q) (p : Q) :
  (List.length h <= 50)%nat ->
  push_history h p =
    if (List.length h <? 50)%nat then h ++ [p] else List.tl h ++ [p].
Proof.
  intros Hh. unfold push_history.
  rewrite length_app. simpl.
  destruct (List.length h <? 50)%nat eqn:Hlt.
  - apply Nat.ltb_lt in Hlt.
    destruct (50 <? List.length h + 1)%nat eqn:Hfull; [|reflexivity].
    apply Nat.ltb_lt in Hfull. lia.
  - apply Nat.ltb_ge in Hlt.
    destruct (50 <? List.length h + 1)%nat eqn:Hfull.
    + destruct h; simpl in *; [lia|reflexivity].
    + apply Nat.ltb_ge in Hfull. lia.
Qed.

Lemma update_assets_bounded ev s rnd (l : list Asset) : forall i,
  Forall (fun a => (List.length (history a) <= 50)%nat) l ->
  Forall (fun a => (List.length (history a) <= 50)%nat)
    (update_assets ev s rnd i l).
Proof.
  induction l as [|a l IH]; intros i Hl; simpl; [constructor|].
  inversion Hl; subst. constructor; [|apply IH; assumption].
  simpl. apply push_history_length. assumption.
Qed.

Lemma update_assets_nth ev s rnd (l : list Asset) : forall i k a,
  List.nth_error l k = Some a ->
  List.nth_error (update_assets ev s rnd i l) k
  = Some (update_asset ev s (rnd (i + k)%nat) a).
Proof.
  induction l as [|b l IH]; intros i k a; destruct k; simpl; try discriminate.
  - intros [= ->]. rewrite Nat.add_0_r. reflexivity.
  - intros H. rewrite (IH (S i) k a H). do 3 f_equal. lia.
Qed.

Lemma update_prices_bounded rnd gs :
  history_bounded gs -> history_bounded (update_prices rnd gs).
Proof. unfold history_bounded. simpl. apply update_assets_bounded. Qed.

Lemma update_prices_each_bounded draws : forall gs,
  history_bounded gs -> history_bounded (update_prices_each draws gs).
Proof.
  unfold update_prices_each.
  induction draws as [|rnd draws IH]; intros gs Hb; simpl; [exact Hb|].
  apply IH, update_prices_bounded, Hb.
Qed.

(** None of the handler bodies but the tick touches the assets. *)
Lemma get_state_tick_assets now rnd gs :
  assets (snd (get_state_tick now rnd gs)) = assets gs
  \/ assets (snd (get_state_tick now rnd gs))
     = update_assets (activeEvent gs) (sentiment gs) rnd 0 (assets gs).
Proof.
  unfold get_state_tick.
  destruct (roundStartTime gs) as [start|]; [|left; reflexivity].
  destruct (phase_eqb (phase gs) PLAYING && Py.truthy start);
    [|left; reflexivity].
  simpl. destruct (_ <? 30)%Z; [right|left]; reflexivity.
Qed.

Lemma buy_asset_session_assets now pid aid amount gs :
  assets (snd (buy_asset_session now pid aid amount gs)) = assets gs.
Proof.
  unfold buy_asset_session.
  repeat (case_match; simpl; try reflexivity).
Qed.

Lemma sell_asset_session_assets now pid aid amount gs :
  assets (snd (sell_asset_session now pid aid amount gs)) = assets gs.
Proof.
  unfold sell_asset_session.
  repeat (case_match; simpl; try reflexivity).
Qed.

Lemma use_powerup_session_assets now pid puid gs :
  assets (snd (use_powerup_session now pid puid gs)) = assets gs.
Proof.
  unfold use_powerup_session.
  repeat (case_match; simpl; try reflexivity).
Qed.

Lemma session_reachable_bounded gs :
  session_reachable gs -> history_bounded gs.
Proof.
  unfold history_bounded.
  induction 1 as [now gid | a b name gs _ IH | now rnd gs _ _ IH | now gs _ IH
                 | a b k gs _ IH | now pid av gs _ IH | now pid st gs _ IH
                 | now pid aid amt gs _ IH | now pid aid amt gs _ IH
                 | now pid pu gs _ IH].
  - simpl. repeat constructor; simpl; lia.
  - unfold join_game_session. case_match; simpl; exact IH.
  - destruct (get_state_tick_assets now rnd gs) as [-> | ->];
      [exact IH|apply update_assets_bounded; exact IH].
  - unfold get_state_round_end. case_match; simpl; exact IH.
  - unfold start_game_session. case_match; simpl; exact IH.
  - unfold select_avatar_session. case_match; simpl; exact IH.
  - unfold select_strategy_session. case_match; simpl; exact IH.
  - rewrite buy_asset_session_assets. exact IH.
  - rewrite sell_asset_session_assets. exact IH.
  - rewrite use_powerup_session_assets. exact IH.
Qed.

(** * From the registry to its sessions *)

Lemma sessions_reachable_empty : sessions_reachable empty_registry.
Proof. intros gid gs. simpl. rewrite lookup_empty. discriminate. Qed.

Lemma sessions_reachable_store game_id gs r :
  sessions_reachable r -> session_reachable gs ->
  sessions_reachable (store game_id gs r).
Proof.
  intros Hr Hgs gid g. simpl. rewrite lookup_insert.
  case_decide; [intros [= <-]; exact Hgs|apply Hr].
Qed.

Lemma get_game_state_reachable now game_id r :
  sessions_reachable r ->
  sessions_reachable (snd (get_game_state now game_id r))
  /\ session_reachable (fst (get_game_state now game_id r)).
Proof.
  intros Hr. unfold get_game_state.
  destruct (game_states r !! game_id) eqn:Hl; simpl.
  - split; [exact Hr|exact (Hr _ _ Hl)].
  - split; [|constructor].
    intros gid g. simpl. rewrite lookup_insert.
    case_decide; [intros [= <-]; constructor|apply Hr].
Qed.

Lemma with_lock_reachable game_id gs r body :
  sessions_reachable r -> session_reachable gs ->
  (forall g, session_reachable g -> session_reachable (snd (body g))) ->
  sessions_reachable (snd (with_lock game_id gs r body)).
Proof.
  intros Hr Hgs Hbody. unfold with_lock.
  case_decide; [|exact Hr].
  specialize (Hbody gs Hgs). destruct (body gs) as [o gs']. simpl in *.
  apply sessions_reachable_store; assumption.
Qed.

(** A handler that fetches the session and runs its body under the lock. *)
Lemma locked_handler_reachable now game_id r body :
  sessions_reachable r ->
  (forall g, session_reachable g -> session_reachable (snd (body g))) ->
  sessions_reachable
    (snd (let (gs, r1) := get_game_state now game_id r in
          with_lock game_id gs r1 body)).
Proof.
  intros Hr Hbody.
  destruct (get_game_state_reachable now game_id r Hr) as [Hr1 Hgs].
  destruct (get_game_state now game_id r) as [gs r1]. simpl in *.
  apply with_lock_reachable; assumption.
Qed.

Lemma handle_reachable e q r :
  unit_draws (rnd e) ->
  sessions_reachable r -> sessions_reachable (snd (handle e q r)).
Proof.
  intros He Hr. destruct q; simpl.
  - unfold join_game. destruct (String.eqb name ""); [exact Hr|].
    apply locked_handler_reachable; [exact Hr|]. intros g Hg. constructor. exact Hg.
  - unfold get_state.
    destruct (get_game_state_reachable (clock e 0) game_id r Hr) as [Hr1 Hgs].
    destruct (get_game_state (clock e 0) game_id r) as [gs r1]. simpl in *.
    pose proof (sr_tick (clock e 1) (rnd e) gs He Hgs) as Htick.
    destruct (get_state_tick (clock e 1) (rnd e) gs) as [tr gs1]. simpl in *.
    pose proof (sessions_reachable_store game_id gs1 r1 Hr1 Htick) as Hr2.
    destruct (round_ended tr); [|exact Hr2].
    apply with_lock_reachable; [exact Hr2|exact Htick|].
    intros g Hg. simpl. constructor. exact Hg.
  - unfold start_game. apply locked_handler_reachable; [exact Hr|].
    intros g Hg. simpl. constructor. exact Hg.
  - unfold select_avatar. apply locked_handler_reachable; [exact Hr|].
    intros g Hg. simpl. constructor. exact Hg.
  - unfold select_strategy. apply locked_handler_reachable; [exact Hr|].
    intros g Hg. simpl. constructor. exact Hg.
  - unfold buy_asset. apply locked_handler_reachable; [exact Hr|].
    intros g Hg. constructor. exact Hg.
  - unfold sell_asset. apply locked_handler_reachable; [exact Hr|].
    intros g Hg. constructor. exact Hg.
  - unfold use_powerup. apply locked_handler_reachable; [exact Hr|].
    intros g Hg. constructor. exact Hg.
  - unfold reset_game. simpl.
    apply sessions_reachable_store; [exact Hr|constructor].
  - unfold get_results.
    destruct (get_game_state_reachable (clock e 0) game_id r Hr) as [Hr1 _].
    destruct (get_game_state (clock e 0) game_id r) as [gs r1]. exact Hr1.
Qed.

Lemma reachable_sessions r : reachable r -> sessions_reachable r.
Proof.
  induction 1 as [|e q r He _ IH];
    [apply sessions_reachable_empty|apply handle_reachable; assumption].
Qed.

Lemma serve_reachable l :
  Forall (fun eq => unit_draws (rnd (fst eq))) l ->
  forall r, reachable r -> reachable (serve l r).
Proof.
  induction 1 as [|[e q] l He _ IH]; intros r Hr; simpl; [exact Hr|].
  apply IH. constructor; assumption.
Qed.

(** * The sample sessions *)

Lemma demo_env_draws t : unit_draws (rnd (demo_env t)).
Proof. intros i. simpl. split; [discriminate|reflexivity]. Qed.

Lemma demo_registry_reachable : reachable demo_registry.
Proof.
  apply serve_reachable; [|apply reachable_start].
  repeat (constructor; [apply demo_env_draws|]). constructor.
Qed.

Lemma traded_registry_reachable : reachable traded_registry.
Proof.
  apply serve_reachable; [|apply demo_registry_reachable].
  repeat (constructor; [apply demo_env_draws|]). constructor.
Qed.


Lemma last_round_registry_reachable : reachable last_round_registry.
Proof.
  apply serve_reachable; [|apply reachable_start].
  repeat (constructor; [apply demo_env_draws|]). constructor.
Qed.

Lemma finished_registry_reachable : reachable finished_registry.
Proof.
  apply serve_reachable; [|apply last_round_registry_reachable].
  repeat (constructor; [apply demo_env_draws|]). constructor.
Qed.

Lemma demo_registry_session :
  game_states demo_registry !! "default" = Some demo_session.
Proof. vm_compute. reflexivity. Qed.

Lemma traded_registry_session :
  game_states traded_registry !! "default" = Some traded_session.
Proof. vm_compute. reflexivity. Qed.


Lemma finished_registry_session :
  game_states finished_registry !! "default" = Some finished_session.
Proof. vm_compute. reflexivity. Qed.



Lemma demo_session_alice :
  find_player "player-0-1000" (players demo_session)
  = Some (first_player demo_session).
Proof. vm_compute. reflexivity. Qed.









Lemma finished_session_finished : phase finished_session = FINISHED.
Proof. vm_compute. reflexivity. Qed.

(** * No event, neutral sentiment *)

Lemma find_player_In pid l p : find_player pid l = Some p -> In p l.
Proof. intros H. apply List.find_some in H. tauto. Qed.

Lemma quiet_found pid gs p :
  quiet gs -> find_player pid (players gs) = Some p -> log_clean p.
Proof.
  intros (_ & _ & Hl) Hf. apply find_player_In in Hf.
  rewrite List.Forall_forall in Hl. exact (Hl p Hf).
Qed.

Lemma trade_record_clean gs ty aid asset amount total :
  quiet gs -> clean_record (trade_record gs ty aid asset amount total).
Proof.
  intros (He & Hs & _). split; simpl; [rewrite He; reflexivity|apply Hs].
Qed.

Lemma log_transaction_clean t p :
  log_clean p -> clean_record t -> log_clean (log_transaction t p).
Proof.
  intros Hp Ht. unfold log_clean, log_transaction. simpl.
  apply Forall_app. split; [exact Hp|].
  constructor; [exact Ht|constructor].
Qed.

Lemma update_prices_quiet rnd gs : quiet gs -> quiet (update_prices rnd gs).
Proof.
  intros (He & Hs & Hl). repeat split; [exact He|exact Hs|].
  simpl. rewrite List.Forall_forall in *. intros p Hp.
  apply in_map_iff in Hp as (p0 & <- & Hp0). exact (Hl p0 Hp0).
Qed.

Lemma get_state_tick_quiet now rnd gs :
  quiet gs -> quiet (snd (get_state_tick now rnd gs)).
Proof.
  intros Hq. unfold get_state_tick.
  destruct (roundStartTime gs) as [start|]; [|exact Hq].
  destruct (phase_eqb (phase gs) PLAYING && Py.truthy start); [|exact Hq].
  simpl. destruct (_ <? 30)%Z; [apply update_prices_quiet|]; exact Hq.
Qed.

Lemma buy_asset_session_quiet now pid aid amount gs :
  quiet gs -> quiet (snd (buy_asset_session now pid aid amount gs)).
Proof.
  intros Hq. unfold buy_asset_session.
  destruct (find_player pid (players gs)) as [player|] eqn:Hp; [|exact Hq].
  destruct (find_asset aid (assets gs)) as [asset|]; [|exact Hq].
  destruct (negb _); [exact Hq|].
  destruct (Qle_bool _ _); [|exact Hq].
  pose proof (quiet_found _ _ _ Hq Hp) as Hclean.
  pose proof (trade_record_clean gs BUY aid asset amount
                (amount * currentPrice asset) Hq) as Hrec.
  destruct Hq as (He & Hs & Hl).
  simpl. destruct (find_holding aid (holdings player)) as [holding|].
  - destruct (Qeq_bool _ _); simpl;
      (repeat split; [exact He|exact Hs|]);
      apply update_first_Forall; try exact Hl; intros _ _ _.
    + exact Hclean.
    + apply log_transaction_clean; [exact Hclean|exact Hrec].
  - repeat split; [exact He|exact Hs|].
    apply update_first_Forall; [exact Hl|]. intros _ _ _.
    apply log_transaction_clean; [exact Hclean|exact Hrec].
Qed.

Lemma sell_asset_session_quiet now pid aid amount gs :
  quiet gs -> quiet (snd (sell_asset_session now pid aid amount gs)).
Proof.
  intros Hq. unfold sell_asset_session.
  destruct (find_player pid (players gs)) as [player|] eqn:Hp; [|exact Hq].
  destruct (find_asset aid (assets gs)) as [asset|]; [|exact Hq].
  destruct (negb _); [exact Hq|].
  destruct (find_holding aid (holdings player)) as [holding|]; [|exact Hq].
  destruct (Qle_bool amount _); [|exact Hq].
  pose proof (quiet_found _ _ _ Hq Hp) as Hclean.
  pose proof (trade_record_clean gs SELL aid asset amount
                (amount * currentPrice asset) Hq) as Hrec.
  destruct Hq as (He & Hs & Hl).
  repeat split; [exact He|exact Hs|].
  simpl. apply update_first_Forall; [exact Hl|]. intros _ _ _.
  destruct (Qle_bool _ 0);
    (apply log_transaction_clean; [exact Hclean|exact Hrec]).
Qed.

Lemma use_powerup_session_quiet now pid puid gs :
  quiet gs -> quiet (snd (use_powerup_session now pid puid gs)).
Proof.
  intros Hq. unfold use_powerup_session.
  destruct (find_player pid (players gs)) as [player|] eqn:Hp; [|exact Hq].
  destruct (List.find _ (powerUps player)) as [powerup|]; [|exact Hq].
  destruct (usesLeft powerup <=? 0)%Z; [exact Hq|].
  pose proof (quiet_found _ _ _ Hq Hp) as Hclean.
  destruct Hq as (He & Hs & Hl).
  repeat split; [exact He|exact Hs|].
  simpl. apply update_first_Forall; [exact Hl|]. intros _ _ _.
  destruct (String.eqb puid "future-glimpse"); [exact Hclean|].
  destruct (String.eqb puid "market-freeze"); exact Hclean.
Qed.

Lemma session_reachable_quiet gs : session_reachable gs -> quiet gs.
Proof.
  induction 1 as [now gid | a b name gs _ IH | now rnd gs _ _ IH | now gs _ IH
                 | a b k gs _ IH | now pid av gs _ IH | now pid st gs _ IH
                 | now pid aid amt gs _ IH | now pid aid amt gs _ IH
                 | now pid pu gs _ IH].
  - repeat split; [intros []; reflexivity|constructor].
  - unfold join_game_session. destruct IH as (He & Hs & Hl).
    case_match; simpl; (repeat split; [exact He|exact Hs|]); [exact Hl|].
    simpl. apply Forall_app. split; [exact Hl|]. repeat constructor.
  - apply get_state_tick_quiet. exact IH.
  - unfold get_state_round_end. case_match; exact IH.
  - unfold start_game_session. case_match; exact IH.
  - unfold select_avatar_session.
    destruct (find_player pid (players gs)) as [player|] eqn:Hp; [|exact IH].
    pose proof (quiet_found _ _ _ IH Hp) as Hclean.
    destruct IH as (He & Hs & Hl). repeat split; [exact He|exact Hs|].
    simpl. apply update_first_Forall; [exact Hl|]. intros _ _ _. exact Hclean.
  - unfold select_strategy_session.
    destruct (find_player pid (players gs)) as [player|] eqn:Hp; [|exact IH].
    pose proof (quiet_found _ _ _ IH Hp) as Hclean.
    destruct IH as (He & Hs & Hl). repeat split; [exact He|exact Hs|].
    simpl. apply update_first_Forall; [exact Hl|]. intros _ _ _. exact Hclean.
  - apply buy_asset_session_quiet. exact IH.
  - apply sell_asset_session_quiet. exact IH.
  - apply use_powerup_session_quiet. exact IH.
Qed.

Lemma sentiment_drift_neutral s t :
  sentiment_get s t = 0%Z -> sentiment_drift s t == 0.
Proof. intros H. unfold sentiment_drift. rewrite H. reflexivity. Qed.

Lemma price_change_quiet s r asset :
  sentiment_get s (a_type asset) = 0%Z ->
  price_change None s r asset
  == (r - (1 # 2)) * (15 # 1000) * baseVolatility asset.
Proof.
  intros H. unfold price_change, random_movement. simpl.
  rewrite (sentiment_drift_neutral _ _ H). ring.
Qed.

(** C8. In every session of a reachable registry each asset's price history
    holds at most 50 entries, and stays so after any number of further
    price updates; an update appends the asset's new price as the last entry
    and, when the history already holds 50, drops the oldest one. *)
Theorem history_never_exceeds_50 (r : registry) (game_id : string)
    (gs : game_state) :
  reachable r -> game_states r !! game_id = Some gs ->
  history_bounded gs
  /\ (forall draws, history_bounded (update_prices_each draws gs))
  /\ (forall rnd k a, List.nth_error (assets gs) k = Some a ->
        exists a',
          List.nth_error (assets (update_prices rnd gs)) k = Some a'
          /\ history a' =
               if (List.length (history a) <? 50)%nat
               then history a ++ [currentPrice a']
               else List.tl (history a) ++ [currentPrice a']).
Proof.
  intros Hr Hgs.
  assert (Hb : history_bounded gs).
  { apply session_reachable_bounded.
    exact (reachable_sessions r Hr game_id gs Hgs). }
  split; [exact Hb|]. split.
  - intros draws. apply update_prices_each_bounded. exact Hb.
  - intros rnd k a Hk. eexists. split.
    + simpl. apply update_assets_nth. exact Hk.
    + simpl. apply push_history_shape.
      unfold history_bounded in Hb. rewrite List.Forall_forall in Hb.
      apply Hb. eapply List.nth_error_In. exact Hk.
Qed.

Lemma history_never_exceeds_50_witness :
  history_bounded demo_session
  /\ (forall draws, history_bounded (update_prices_each draws demo_session)).
Proof.
  pose proof (history_never_exceeds_50 demo_registry "default" demo_session
                demo_registry_reachable demo_registry_session) as H.
  split; [exact (proj1 H)|exact (proj1 (proj2 H))].
Defined.

(** C9. In every session of a reachable registry there is no active event
    and every sentiment value is 0; hence a price update moves a price by
    its random movement alone (the news term adds nothing and the sentiment
    drift is 0), and every transaction record of every player has
    [eventActive = None] and [sentimentAtTime = 0]. *)
Theorem no_event_and_neutral_sentiment (r : registry) (game_id : string)
    (gs : game_state) :
  reachable r -> game_states r !! game_id = Some gs ->
  activeEvent gs = None
  /\ (forall t, sentiment_get (sentiment gs) t = 0%Z)
  /\ (forall t change, news_impact (activeEvent gs) t change = change)
  /\ (forall t, sentiment_drift (sentiment gs) t == 0)
  /\ (forall x asset,
        price_change (activeEvent gs) (sentiment gs) x asset
        == (x - (1 # 2)) * (15 # 1000) * baseVolatility asset)
  /\ (forall p t, In p (players gs) -> In t (transactionLog p) ->
        eventActive t = None /\ sentimentAtTime t = 0%Z).
Proof.
  intros Hr Hgs.
  destruct (session_reachable_quiet gs
              (reachable_sessions r Hr game_id gs Hgs)) as (He & Hs & Hl).
  split; [exact He|]. split; [exact Hs|]. rewrite He.
  split; [reflexivity|].
  split; [intros t; apply sentiment_drift_neutral, Hs|].
  split; [intros x asset; apply price_change_quiet, Hs|].
  intros p t Hp Ht. rewrite List.Forall_forall in Hl.
  specialize (Hl p Hp). rewrite List.Forall_forall in Hl. exact (Hl t Ht).
Qed.

Lemma no_event_and_neutral_sentiment_witness :
  activeEvent traded_session = None
  /\ (forall p t, In p (players traded_session) ->
        In t (transactionLog p) ->
        eventActive t = None /\ sentimentAtTime t = 0%Z).
Proof.
  pose proof (no_event_and_neutral_sentiment traded_registry "default"
                traded_session traded_registry_reachable
                traded_registry_session) as H.
  split; [exact (proj1 H)|].
  exact (proj2 (proj2 (proj2 (proj2 (proj2 H))))).
Defined.
(** * RoundClock: one poll of the state *)






(** * The handlers on a known session

    For a session that is in the registry with its lock, a handler is its
    body on that session, written back under the same game id. *)

Lemma store_store game_id a b r :
  store game_id a (store game_id b r) = store game_id a r.
Proof. unfold store. simpl. rewrite insert_insert_eq. reflexivity. Qed.

Lemma get_game_state_known now game_id r gs :
  game_states r !! game_id = Some gs ->
  get_game_state now game_id r = (gs, r).
Proof. intros H. unfold get_game_state. rewrite H. reflexivity. Qed.

Lemma with_lock_known game_id gs r body :
  game_id ∈ game_locks r ->
  with_lock game_id gs r body
  = (fst (body gs), store game_id (snd (body gs)) r).
Proof.
  intros H. unfold with_lock. rewrite decide_True by exact H.
  destruct (body gs); reflexivity.
Qed.

Lemma get_state_known e game_id r gs :
  game_states r !! game_id = Some gs -> game_id ∈ game_locks r ->
  get_state e game_id r
  = (Success,
     store game_id
       (get_state_session (clock e 1) (clock e 2) (rnd e) gs) r).
Proof.
  intros Hgs Hlock. unfold get_state, get_state_session.
  rewrite (get_game_state_known _ _ _ _ Hgs).
  destruct (get_state_tick (clock e 1) (rnd e) gs) as [tr gs1].
  destruct (round_ended tr); [|reflexivity].
  rewrite with_lock_known by exact Hlock. simpl.
  rewrite store_store. reflexivity.
Qed.

Lemma buy_asset_known e player_id asset_id amount game_id r gs :
  game_states r !! game_id = Some gs -> game_id ∈ game_locks r ->
  buy_asset e player_id asset_id amount game_id r
  = (fst (buy_asset_session (clock e 1) player_id asset_id amount gs),
     store game_id
       (snd (buy_asset_session (clock e 1) player_id asset_id amount gs)) r).
Proof.
  intros Hgs Hlock. unfold buy_asset.
  rewrite (get_game_state_known _ _ _ _ Hgs).
  apply with_lock_known. exact Hlock.
Qed.

Lemma sell_asset_known e player_id asset_id amount game_id r gs :
  game_states r !! game_id = Some gs -> game_id ∈ game_locks r ->
  sell_asset e player_id asset_id amount game_id r
  = (fst (sell_asset_session (clock e 1) player_id asset_id amount gs),
     store game_id
       (snd (sell_asset_session (clock e 1) player_id asset_id amount gs)) r).
Proof.
  intros Hgs Hlock. unfold sell_asset.
  rewrite (get_game_state_known _ _ _ _ Hgs).
  apply with_lock_known. exact Hlock.
Qed.

Lemma get_results_known e game_id r gs :
  game_states r !! game_id = Some gs ->
  get_results e game_id r = (get_results_session gs, r).
Proof.
  intros Hgs. unfold get_results.
  rewrite (get_game_state_known _ _ _ _ Hgs). reflexivity.
Qed.

(** * PortfolioLedger *)

Lemma update_first_const {A : Type} (p : A -> bool) (g : A -> A) (l : list A)
    (x : A) :
  List.find p l = Some x ->
  Py.update_first p (fun _ => g x) l = Py.update_first p g l.
Proof.
  induction l as [|y l IH]; simpl; [reflexivity|].
  destruct (p y); [intros [= ->]; reflexivity|].
  intros H. f_equal. exact (IH H).
Qed.

Lemma filter_update_first {A : Type} (p : A -> bool) (f : A -> A)
    (l : list A) :
  (forall x, p x = true -> p (f x) = true) ->
  List.filter (fun x => negb (p x)) (Py.update_first p f l)
  = List.filter (fun x => negb (p x)) l.
Proof.
  intros Hf. induction l as [|y l IH]; simpl; [reflexivity|].
  destruct (p y) eqn:Hy; simpl.
  - rewrite (Hf y Hy). reflexivity.
  - rewrite Hy. simpl. f_equal. exact IH.
Qed.


Lemma find_app_last {A : Type} (p : A -> bool) (l : list A) (x : A) :
  List.find p l = None -> p x = true -> List.find p (l ++ [x]) = Some x.
Proof.
  induction l as [|y l IH]; simpl; intros Hl Hx; [rewrite Hx; reflexivity|].
  destruct (p y); [discriminate|auto].
Qed.


Lemma find_player_id pid l p :
  find_player pid l = Some p -> String.eqb (p_id p) pid = true.
Proof. intros H. apply List.find_some in H. tauto. Qed.

Lemma find_holding_holds aid l h :
  find_holding aid l = Some h -> holds aid h = true.
Proof. intros H. apply List.find_some in H. tauto. Qed.

(** Writing a player back under its own id: it is the one read next. *)
Lemma find_put_player pid gs p p' :
  find_player pid (players gs) = Some p -> p_id p' = p_id p ->
  find_player pid (players (put_player pid p' gs)) = Some p'.
Proof.
  intros Hp Hid. unfold find_player, put_player. simpl.
  apply (find_update_first _ (fun _ => p') (players gs) p Hp).
  unfold is_player. rewrite Hid. exact (find_player_id _ _ _ Hp).
Qed.

Lemma phase_eqb_eq a b : phase_eqb a b = true <-> a = b.
Proof. destruct a, b; simpl; split; congruence. Qed.

Lemma phase_not_playing gs :
  phase gs <> PLAYING -> negb (phase_eqb (phase gs) PLAYING) = true.
Proof.
  intros H. destruct (phase_eqb (phase gs) PLAYING) eqn:E; [|reflexivity].
  apply phase_eqb_eq in E. contradiction.
Qed.

Lemma Qle_bool_false x y : Qle_bool x y = false <-> y < x.
Proof.
  split; intros H.
  - apply Qnot_le_lt. intros Hle. apply Qle_bool_iff in Hle. congruence.
  - destruct (Qle_bool x y) eqn:E; [|reflexivity].
    apply Qle_bool_iff in E. apply Qlt_not_le in H. contradiction.
Qed.

Lemma Qeq_bool_false x y : Qeq_bool x y = false <-> ~ x == y.
Proof.
  split; intros H.
  - intros Heq. apply Qeq_bool_iff in Heq. congruence.
  - destruct (Qeq_bool x y) eqn:E; [|reflexivity].
    apply Qeq_bool_iff in E. contradiction.
Qed.

(** Either the request is invalid, or the player and the asset are there
    and the session is PLAYING. *)
Lemma trade_request_cases pid aid gs :
  (find_player pid (players gs) = None
   \/ find_asset aid (assets gs) = None
   \/ phase gs <> PLAYING)
  \/ exists player asset,
       find_player pid (players gs) = Some player
       /\ find_asset aid (assets gs) = Some asset
       /\ phase gs = PLAYING.
Proof.
  destruct (find_player pid (players gs)) as [player|]; [|left; left; reflexivity].
  destruct (find_asset aid (assets gs)) as [asset|];
    [|left; right; left; reflexivity].
  destruct (phase gs) eqn:E;
    try (left; right; right; discriminate).
  right. exists player, asset. repeat split.
Qed.

(** ** Buy *)

(** The buy handler, once the player and the asset are found in a PLAYING
    session. *)
Lemma buy_asset_session_found now pid aid amount gs player asset :
  find_player pid (players gs) = Some player ->
  find_asset aid (assets gs) = Some asset ->
  phase gs = PLAYING ->
  buy_asset_session now pid aid amount gs =
    if Qle_bool (amount * currentPrice asset) (cash player) then
      match find_holding aid (holdings player) with
      | Some holding =>
          if Qeq_bool (quantity holding + amount) 0 then
            (Raised ZeroDivisionError,
             put_player pid (after_failed_buy player aid asset amount) gs)
          else
            (Success,
             set_lastUpdate now
               (put_player pid (after_buy gs player aid asset amount) gs))
      | None =>
          (Success,
           set_lastUpdate now
             (put_player pid (after_buy gs player aid asset amount) gs))
      end
    else (Failure InsufficientFunds, gs).
Proof.
  intros Hp Ha Hphase. unfold buy_asset_session.
  rewrite Hp, Ha, Hphase. simpl.
  destruct (Qle_bool _ _); [|reflexivity].
  unfold after_buy, after_failed_buy, holdings_after_buy.
  destruct (find_holding aid (holdings player)) as [holding|] eqn:Hh;
    [|reflexivity].
  destruct (Qeq_bool _ _).
  - unfold put_holding. simpl.
    rewrite (update_first_const _
               (fun h => set_quantity (quantity h + amount) h) _ _ Hh).
    reflexivity.
  - unfold put_holding, log_transaction. simpl.
    rewrite <- (update_first_const _
                  (fun h => mkHolding (assetId h) (quantity h + amount)
                              (vwap (quantity h) (avgBuyPrice h) amount
                                 (currentPrice asset))) _ _ Hh).
    reflexivity.
Qed.

Lemma buy_asset_session_invalid now pid aid amount gs :
  find_player pid (players gs) = None
  \/ find_asset aid (assets gs) = None
  \/ phase gs <> PLAYING ->
  buy_asset_session now pid aid amount gs = (Failure InvalidRequest, gs).
Proof.
  unfold buy_asset_session. intros [H | [H | H]].
  - rewrite H. reflexivity.
  - rewrite H. destruct (find_player _ _); reflexivity.
  - destruct (find_player _ _); [|reflexivity].
    destruct (find_asset _ _); [|reflexivity].
    rewrite (phase_not_playing gs H). reflexivity.
Qed.






(** ** Sell *)

(** The sell handler, once the player and the asset are found in a
    PLAYING session. *)
Lemma sell_asset_session_found now pid aid amount gs player asset :
  find_player pid (players gs) = Some player ->
  find_asset aid (assets gs) = Some asset ->
  phase gs = PLAYING ->
  sell_asset_session now pid aid amount gs =
    match find_holding aid (holdings player) with
    | Some holding =>
        if Qle_bool amount (quantity holding) then
          (Success,
           set_lastUpdate now
             (put_player pid (after_sell gs player aid asset amount) gs))
        else (Failure InsufficientHoldings, gs)
    | None => (Failure InsufficientHoldings, gs)
    end.
Proof.
  intros Hp Ha Hphase. unfold sell_asset_session.
  rewrite Hp, Ha, Hphase. simpl.
  destruct (find_holding aid (holdings player)) as [holding|] eqn:Hh;
    [|reflexivity].
  destruct (Qle_bool amount (quantity holding)) eqn:Hle; [|reflexivity].
  apply Qle_bool_iff in Hle.
  unfold after_sell, holdings_after_sell. rewrite Hh.
  do 3 f_equal.
  destruct (Qeq_bool (quantity holding - amount) 0) eqn:Hz.
  - apply Qeq_bool_iff in Hz.
    assert (Hle0 : Qle_bool (quantity holding - amount) 0 = true)
      by (apply Qle_bool_iff; lra).
    rewrite Hle0. unfold log_transaction, put_holding. simpl.
    rewrite filter_update_first; [reflexivity|].
    intros _ _. exact (find_holding_holds _ _ _ Hh).
  - apply Qeq_bool_false in Hz.
    assert (Hle0 : Qle_bool (quantity holding - amount) 0 = false)
      by (apply Qle_bool_false; lra).
    rewrite Hle0. unfold log_transaction, put_holding. simpl.
    rewrite <- (update_first_const _
                  (fun h => mkHolding (assetId h) (quantity h - amount)
                              (avgBuyPrice h)) _ _ Hh).
    reflexivity.
Qed.

Lemma sell_asset_session_invalid now pid aid amount gs :
  find_player pid (players gs) = None
  \/ find_asset aid (assets gs) = None
  \/ phase gs <> PLAYING ->
  sell_asset_session now pid aid amount gs = (Failure InvalidRequest, gs).
Proof.
  unfold sell_asset_session. intros [H | [H | H]].
  - rewrite H. reflexivity.
  - rewrite H. destruct (find_player _ _); reflexivity.
  - destruct (find_player _ _); [|reflexivity].
    destruct (find_asset _ _); [|reflexivity].
    rewrite (phase_not_playing gs H). reflexivity.
Qed.





(** ** The contracts *)










(** * RiskScorer *)













(** * ResultsCalculator *)

















(** * Concurrent polls at the round boundary *)












(** C1. Two polls of a session at its round boundary. Served one after the
    other they advance the round once. Served by two threads that both
    tick before either takes the lock, each sees [time_remaining = 0] and
    each runs the round-end block: the round advances twice. The tick
    itself (the timer write and the price update) runs while another
    thread holds the lock. *)
Theorem concurrent_polls_advance_twice :
  let rnd := fun _ : nat => 1 # 2 in
  currentRound demo_session = 1%Z
  /\ currentRound
       (get_state_session 1035 1035 rnd
          (get_state_session 1035 1035 rnd demo_session)) = 2%Z
  /\ (exists s,
        Concurrent.run (Concurrent.boundary_schedule 2 1035 1035 rnd)
          (Concurrent.arrive 2 demo_session) = Some s
        /\ currentRound (Concurrent.session s) = 3%Z)
  /\ (exists s,
        Concurrent.run
          [ (0%nat, Concurrent.Tick 1035 rnd); (0%nat, Concurrent.Acquire);
            (1%nat, Concurrent.Tick 1035 rnd) ]
          (Concurrent.arrive 2 demo_session) = Some s
        /\ Concurrent.lock s = Some 0%nat
        /\ Concurrent.threads s = [Concurrent.Locked; Concurrent.Waiting]
        /\ timeRemaining (Concurrent.session s) = 0%Z).
Proof.
  cbv zeta.
  split; [vm_compute; reflexivity|].
  split; [vm_compute; reflexivity|].
  split; eexists; (split; [vm_compute; reflexivity|]); repeat split.
Qed.

(** * Further properties of the handlers *)

(** ** Power-ups *)

(** X2. [use_powerup] fails with PlayerNotFound for an unknown player and
    with PowerUpUnavailable when the player has no such power-up or no use
    of it left, leaving the session as it was. Otherwise it succeeds: the
    power-up has one use less, "future-glimpse" lowers the risk score by 20
    (not below 0), "market-freeze" adds 1000 to the cash, and any other
    power-up the player has is used up without effect. *)
Theorem use_powerup_contract (now : Q) (player_id powerup_id : string)
    (gs : game_state) :
  let out := use_powerup_session now player_id powerup_id gs in
  (find_player player_id (players gs) = None ->
   out = (Failure PlayerNotFound, gs))
  /\ (forall player,
        find_player player_id (players gs) = Some player ->
        (List.find (has_powerup powerup_id) (powerUps player) = None
         \/ exists u,
              List.find (has_powerup powerup_id) (powerUps player) = Some u
              /\ (usesLeft u <= 0)%Z) ->
        out = (Failure PowerUpUnavailable, gs))
  /\ (forall player u,
        find_player player_id (players gs) = Some player ->
        List.find (has_powerup powerup_id) (powerUps player) = Some u ->
        (0 < usesLeft u)%Z ->
        let player' := after_powerup player powerup_id in
        out = (Success, set_lastUpdate now (put_player player_id player' gs))
        /\ List.find (has_powerup powerup_id) (powerUps player')
           = Some (set_usesLeft (usesLeft u - 1) u)
        /\ (powerup_id = "future-glimpse" ->
            riskScore player' = Z.max 0 (riskScore player - 20)
            /\ cash player' = cash player)
        /\ (powerup_id = "market-freeze" ->
            cash player' = cash player + 1000
            /\ riskScore player' = riskScore player)
        /\ (powerup_id <> "future-glimpse" ->
            powerup_id <> "market-freeze" ->
            cash player' = cash player
            /\ riskScore player' = riskScore player)).
Proof.
  cbv zeta. unfold use_powerup_session. split.
  { intros ->. reflexivity. }
  split.
  { intros player -> [-> | (u & -> & Hu)]; [reflexivity|].
    apply Z.leb_le in Hu. rewrite Hu. reflexivity. }
  intros player u -> Hu Hpos. rewrite Hu.
  assert (Hleb : (usesLeft u <=? 0)%Z = false) by (apply Z.leb_gt; exact Hpos).
  rewrite Hleb. unfold after_powerup.
  assert (Hfind :
    List.find (has_powerup powerup_id)
      (Py.update_first (has_powerup powerup_id)
         (fun u0 => set_usesLeft (usesLeft u0 - 1) u0) (powerUps player))
    = Some (set_usesLeft (usesLeft u - 1) u)).
  { apply (find_update_first (has_powerup powerup_id)
             (fun u0 => set_usesLeft (usesLeft u0 - 1) u0) _ u Hu).
    apply List.find_some in Hu. exact (proj2 Hu). }
  destruct (String.eqb powerup_id "future-glimpse") eqn:E1.
  - apply String.eqb_eq in E1. subst powerup_id.
    split; [reflexivity|]. split; [exact Hfind|].
    split; [intros _; split; reflexivity|].
    split; [discriminate|]. intros H. contradiction.
  - apply String.eqb_neq in E1.
    destruct (String.eqb powerup_id "market-freeze") eqn:E2.
    + apply String.eqb_eq in E2. subst powerup_id.
      split; [reflexivity|]. split; [exact Hfind|].
      split; [discriminate|].
      split; [intros _; split; reflexivity|]. intros _ H. contradiction.
    + apply String.eqb_neq in E2.
      split; [reflexivity|]. split; [exact Hfind|].
      split; [intros H; contradiction|].
      split; [intros H; contradiction|]. intros _ _. split; reflexivity.
Qed.

(** Scenario E on the sample session: the bailout works once. *)
Lemma use_powerup_contract_witness :
  let first := use_powerup_session 1001 "player-0-1000" "market-freeze"
                 demo_session in
  let second := use_powerup_session 1002 "player-0-1000" "market-freeze"
                  (snd first) in
  fst first = Success
  /\ cash (first_player (snd first)) == 11000
  /\ second = (Failure PowerUpUnavailable, snd first).
Proof.
  cbv zeta.
  destruct (use_powerup_contract 1001 "player-0-1000" "market-freeze"
              demo_session) as (_ & _ & Hok).
  destruct (Hok (first_player demo_session)
              (mkPowerUp "market-freeze" "Bailout" "+$1000 Cash" 1))
    as (Hout & _).
  - exact demo_session_alice.
  - vm_compute. reflexivity.
  - reflexivity.
  - rewrite Hout. split; [reflexivity|].
    split; vm_compute; reflexivity.
Defined.

(** ** Joining *)

(** X3. Joining twice under one name gives the same player id both times,
    and the second join adds no player. *)
Theorem join_game_idempotent (t1 t2 t3 t4 : Q) (name : string)
    (gs : game_state) :
  let first := join_game_session t1 t2 name gs in
  let second := join_game_session t3 t4 name (snd first) in
  fst second = fst first /\ players (snd second) = players (snd first).
Proof.
  cbv zeta. unfold join_game_session.
  destruct (List.find (fun p => String.eqb (p_name p) name) (players gs))
    as [p|] eqn:Hfind; simpl.
  - rewrite Hfind. split; reflexivity.
  - set (player_id := String.append _ _).
    rewrite (find_app_last (fun p => String.eqb (p_name p) name) (players gs)
               (create_player player_id name) Hfind (String.eqb_refl name)).
    split; reflexivity.
Qed.

(** ** Phases and rounds *)

(** X4. No handler moves a session back to an earlier phase. *)
Theorem phase_never_regresses (gs gs' : game_state) :
  session_step gs gs' ->
  (phase_rank (phase gs) <= phase_rank (phase gs'))%nat.
Proof.
  intros Hstep. destruct Hstep.
  - unfold join_game_session. case_match; simpl; lia.
  - unfold get_state_tick. repeat case_match; simpl; lia.
  - unfold get_state_round_end. case_match; simpl;
      destruct (phase gs); simpl; lia.
  - unfold start_game_session.
    destruct (phase gs) eqn:E; simpl; rewrite ?E; simpl; lia.
  - unfold select_avatar_session. case_match; simpl; lia.
  - unfold select_strategy_session. case_match; simpl; lia.
  - unfold buy_asset_session. repeat case_match; simpl; lia.
  - unfold sell_asset_session. repeat case_match; simpl; lia.
  - unfold use_powerup_session. repeat case_match; simpl; lia.
Qed.

Lemma phase_never_regresses_witness :
  (phase_rank (phase demo_session)
   <= phase_rank (phase (get_state_round_end 1035 demo_session)))%nat.
Proof. apply phase_never_regresses. constructor. Defined.

(** ** One holding per asset *)

Lemma map_assetId_update_first p f hs :
  (forall h, assetId (f h) = assetId h) ->
  List.map assetId (Py.update_first p f hs) = List.map assetId hs.
Proof.
  intros Hf. induction hs as [|h hs IH]; simpl; [reflexivity|].
  destruct (p h); simpl; [rewrite Hf; reflexivity|rewrite IH; reflexivity].
Qed.

Lemma find_holding_not_held aid hs :
  find_holding aid hs = None -> ~ In aid (List.map assetId hs).
Proof.
  intros Hnone Hin. apply in_map_iff in Hin as (h & Hid & Hh).
  pose proof (List.find_none _ _ Hnone h Hh) as Hf.
  unfold holds in Hf. rewrite Hid, String.eqb_refl in Hf. discriminate.
Qed.

Lemma NoDup_map_filter {A B : Type} (g : A -> B) (f : A -> bool)
    (l : list A) :
  List.NoDup (List.map g l) -> List.NoDup (List.map g (List.filter f l)).
Proof.
  induction l as [|x l IH]; simpl; intros Hnd; [constructor|].
  inversion Hnd as [|? ? Hx Hl]; subst.
  destruct (f x); simpl; [|exact (IH Hl)].
  constructor; [|exact (IH Hl)].
  intros Hin. apply Hx. apply in_map_iff in Hin as (y & Hy & Hyl).
  apply in_map_iff. exists y. split; [exact Hy|].
  apply List.filter_In in Hyl. tauto.
Qed.

Lemma holdings_after_buy_NoDup aid amount price hs :
  List.NoDup (List.map assetId hs) ->
  List.NoDup (List.map assetId (holdings_after_buy aid amount price hs)).
Proof.
  intros Hnd. unfold holdings_after_buy.
  destruct (find_holding aid hs) eqn:Hh.
  - rewrite map_assetId_update_first; [exact Hnd|reflexivity].
  - rewrite List.map_app. apply List.NoDup_app; [exact Hnd| |].
    + simpl. constructor; [intros []|constructor].
    + intros a Ha [<- | []]. exact (find_holding_not_held _ _ Hh Ha).
Qed.

Lemma holdings_after_sell_NoDup aid amount hs :
  List.NoDup (List.map assetId hs) ->
  List.NoDup (List.map assetId (holdings_after_sell aid amount hs)).
Proof.
  intros Hnd. unfold holdings_after_sell.
  destruct (find_holding aid hs); [|exact Hnd].
  destruct (Qeq_bool _ 0).
  - apply NoDup_map_filter. exact Hnd.
  - rewrite map_assetId_update_first; [exact Hnd|reflexivity].
Qed.

Lemma put_player_Forall (P : Player -> Prop) pid p gs :
  Forall P (players gs) -> P p -> Forall P (players (put_player pid p gs)).
Proof.
  intros Hl Hp. simpl. apply update_first_Forall; [exact Hl|]. auto.
Qed.

Lemma found_Forall (P : Player -> Prop) pid l p :
  Forall P l -> find_player pid l = Some p -> P p.
Proof.
  intros Hl Hf. apply find_player_In in Hf.
  rewrite List.Forall_forall in Hl. exact (Hl p Hf).
Qed.

Lemma buy_asset_session_one_holding now pid aid amount gs :
  one_holding_per_asset gs ->
  one_holding_per_asset (snd (buy_asset_session now pid aid amount gs)).
Proof.
  intros Hinv.
  destruct (trade_request_cases pid aid gs)
    as [Hbad | (player & asset & Hp & Ha & Hphase)].
  - rewrite (buy_asset_session_invalid _ _ _ _ _ Hbad). exact Hinv.
  - rewrite (buy_asset_session_found _ _ _ _ _ _ _ Hp Ha Hphase).
    pose proof (found_Forall _ _ _ _ Hinv Hp) as Hnd. simpl in Hnd.
    destruct (Qle_bool _ _); [|exact Hinv].
    destruct (find_holding aid (holdings player)) as [h|] eqn:Hh.
    + destruct (Qeq_bool _ _); simpl;
        (apply put_player_Forall; [exact Hinv|]); simpl.
      * rewrite map_assetId_update_first; [exact Hnd|reflexivity].
      * apply holdings_after_buy_NoDup. exact Hnd.
    + simpl. apply put_player_Forall; [exact Hinv|]. simpl.
      apply holdings_after_buy_NoDup. exact Hnd.
Qed.

Lemma sell_asset_session_one_holding now pid aid amount gs :
  one_holding_per_asset gs ->
  one_holding_per_asset (snd (sell_asset_session now pid aid amount gs)).
Proof.
  intros Hinv.
  destruct (trade_request_cases pid aid gs)
    as [Hbad | (player & asset & Hp & Ha & Hphase)].
  - rewrite (sell_asset_session_invalid _ _ _ _ _ Hbad). exact Hinv.
  - rewrite (sell_asset_session_found _ _ _ _ _ _ _ Hp Ha Hphase).
    pose proof (found_Forall _ _ _ _ Hinv Hp) as Hnd. simpl in Hnd.
    destruct (find_holding aid (holdings player)); [|exact Hinv].
    destruct (Qle_bool _ _); [|exact Hinv].
    simpl. apply put_player_Forall; [exact Hinv|]. simpl.
    apply holdings_after_sell_NoDup. exact Hnd.
Qed.

Lemma session_reachable_one_holding gs :
  session_reachable gs -> one_holding_per_asset gs.
Proof.
  unfold one_holding_per_asset.
  induction 1 as [now gid | a b name gs _ IH | now rnd gs _ _ IH | now gs _ IH
                 | a b k gs _ IH | now pid av gs _ IH | now pid st gs _ IH
                 | now pid aid amt gs _ IH | now pid aid amt gs _ IH
                 | now pid pu gs _ IH].
  - constructor.
  - unfold join_game_session. case_match; simpl; [exact IH|].
    apply Forall_app. split; [exact IH|]. repeat constructor.
  - unfold get_state_tick. repeat case_match; simpl; try exact IH.
    rewrite List.Forall_forall in *. intros p Hp.
    apply in_map_iff in Hp as (p0 & <- & Hp0). exact (IH p0 Hp0).
  - unfold get_state_round_end. case_match; exact IH.
  - unfold start_game_session. case_match; exact IH.
  - unfold select_avatar_session.
    destruct (find_player pid (players gs)) eqn:Hp; [|exact IH].
    apply put_player_Forall; [exact IH|].
    exact (found_Forall _ _ _ _ IH Hp).
  - unfold select_strategy_session.
    destruct (find_player pid (players gs)) eqn:Hp; [|exact IH].
    apply put_player_Forall; [exact IH|].
    exact (found_Forall _ _ _ _ IH Hp).
  - apply buy_asset_session_one_holding. exact IH.
  - apply sell_asset_session_one_holding. exact IH.
  - unfold use_powerup_session.
    destruct (find_player pid (players gs)) eqn:Hp; [|exact IH].
    destruct (List.find _ _); [|exact IH].
    destruct (_ <=? 0)%Z; [exact IH|].
    apply put_player_Forall; [exact IH|].
    pose proof (found_Forall _ _ _ _ IH Hp) as Hnd. simpl in Hnd.
    destruct (String.eqb pu "future-glimpse"); [exact Hnd|].
    destruct (String.eqb pu "market-freeze"); exact Hnd.
Qed.

Lemma session_reachable_round gs : session_reachable gs -> round_in_range gs.
Proof.
  unfold round_in_range.
  induction 1 as [now gid | a b name gs _ IH | now rnd gs _ _ IH | now gs _ IH
                 | a b k gs _ IH | now pid av gs _ IH | now pid st gs _ IH
                 | now pid aid amt gs _ IH | now pid aid amt gs _ IH
                 | now pid pu gs _ IH].
  - simpl. unfold GAME_ROUNDS. lia.
  - unfold join_game_session. case_match; exact IH.
  - unfold get_state_tick. repeat case_match; exact IH.
  - unfold get_state_round_end.
    destruct (currentRound gs <? maxRounds gs)%Z eqn:E; simpl; [|exact IH].
    apply Z.ltb_lt in E. lia.
  - unfold start_game_session. case_match; simpl; [|exact IH].
    destruct IH as [-> _]. unfold GAME_ROUNDS. lia.
  - unfold select_avatar_session. case_match; exact IH.
  - unfold select_strategy_session. case_match; exact IH.
  - unfold buy_asset_session. repeat case_match; exact IH.
  - unfold sell_asset_session. repeat case_match; exact IH.
  - unfold use_powerup_session. repeat case_match; exact IH.
Qed.

(** X5. In every session of a reachable registry a player has at most
    one holding per asset, and the round counter lies between 0 and
    [maxRounds = 5]. *)
Theorem reachable_session_shape (r : registry) (game_id : string)
    (gs : game_state) :
  reachable r -> game_states r !! game_id = Some gs ->
  (forall p, In p (players gs) -> List.NoDup (List.map assetId (holdings p)))
  /\ maxRounds gs = 5%Z
  /\ (0 <= currentRound gs <= 5)%Z.
Proof.
  intros Hr Hgs.
  pose proof (reachable_sessions r Hr game_id gs Hgs) as Hs.
  pose proof (session_reachable_one_holding gs Hs) as H1.
  destruct (session_reachable_round gs Hs) as [Hmax Hround].
  split.
  - unfold one_holding_per_asset in H1. rewrite List.Forall_forall in H1.
    exact H1.
  - rewrite Hmax in Hround. exact (conj Hmax Hround).
Qed.

Lemma reachable_session_shape_witness :
  maxRounds finished_session = 5%Z
  /\ (0 <= currentRound finished_session <= 5)%Z.
Proof.
  exact (proj2 (reachable_session_shape finished_registry "default"
                  finished_session finished_registry_reachable
                  finished_registry_session)).
Defined.

(** ** Revaluation *)


(** ** The registry *)

(** X7. [reset_game] on a game id that has no session stores a session but
    no lock for it; a [join_game] for that id then raises KeyError. *)
Theorem reset_unknown_game_has_no_lock (e1 e2 : env) (name game_id : string)
    (r : registry) :
  (game_id ∉ game_locks r) -> name <> "" ->
  let r1 := snd (reset_game e1 game_id r) in
  game_states r1 !! game_id = Some (create_new_game (clock e1 0) game_id)
  /\ (game_id ∉ game_locks r1)
  /\ join_game e2 name game_id r1 = (Raised KeyError, r1).
Proof.
  intros Hlock Hname. cbv zeta. unfold reset_game. simpl.
  split; [apply lookup_insert_eq|]. split; [exact Hlock|].
  unfold join_game.
  apply String.eqb_neq in Hname. rewrite Hname.
  unfold get_game_state. simpl. rewrite lookup_insert_eq.
  unfold with_lock. simpl. rewrite decide_False by exact Hlock.
  reflexivity.
Qed.

Lemma reset_unknown_game_has_no_lock_witness :
  fst (join_game (demo_env 2) "Alice" "fresh"
         (snd (reset_game (demo_env 1) "fresh" empty_registry)))
  = Raised KeyError.
Proof.
  destruct (reset_unknown_game_has_no_lock (demo_env 1) (demo_env 2) "Alice"
              "fresh" empty_registry) as (_ & _ & Hjoin).
  - simpl. apply not_elem_of_empty.
  - discriminate.
  - rewrite Hjoin. reflexivity.
Defined.

(** ** The end of the match *)



(** ** Prices *)

Lemma update_asset_sane r asset :
  0 <= r -> r < 1 ->
  0 < currentPrice asset ->
  0 <= baseVolatility asset -> baseVolatility asset <= 5 # 2 ->
  0 < currentPrice asset
      * (1 + (r - (1 # 2)) * (15 # 1000) * baseVolatility asset).
Proof.
  intros Hr0 Hr1 Hp Hv0 Hv1.
  assert (Hlow : -(5 # 4) <= (r - (1 # 2)) * baseVolatility asset) by nra.
  assert (Hchange :
    0 < 1 + (r - (1 # 2)) * (15 # 1000) * baseVolatility asset) by lra.
  nra.
Qed.

Lemma update_assets_sane s rnd l : forall i,
  unit_draws rnd -> (forall t, sentiment_get s t = 0%Z) ->
  Forall (fun a => 0 < currentPrice a
                   /\ 0 <= baseVolatility a /\ baseVolatility a <= 5 # 2) l ->
  Forall (fun a => 0 < currentPrice a
                   /\ 0 <= baseVolatility a /\ baseVolatility a <= 5 # 2)
    (update_assets None s rnd i l).
Proof.
  intros i Hrnd Hs Hl. revert i.
  induction Hl as [|a l (Hp & Hv0 & Hv1) _ IH]; intros i; simpl;
    constructor; [|apply IH].
  simpl. split; [|split; assumption].
  rewrite (price_change_quiet s (rnd i) a (Hs _)).
  destruct (Hrnd i) as [Hr0 Hr1].
  apply update_asset_sane; assumption.
Qed.

Lemma session_reachable_sane gs : session_reachable gs -> market_sane gs.
Proof.
  unfold market_sane.
  induction 1 as [now gid | a b name gs _ IH | now rnd gs Hrnd Hgs IH
                 | now gs _ IH
                 | a b k gs _ IH | now pid av gs _ IH | now pid st gs _ IH
                 | now pid aid amt gs _ IH | now pid aid amt gs _ IH
                 | now pid pu gs _ IH].
  - simpl. repeat constructor; simpl; try reflexivity; discriminate.
  - unfold join_game_session. case_match; simpl; exact IH.
  - destruct (session_reachable_quiet gs Hgs) as (He & Hs & _).
    destruct (get_state_tick_assets now rnd gs) as [-> | ->]; [exact IH|].
    rewrite He. apply update_assets_sane; assumption.
  - unfold get_state_round_end. case_match; simpl; exact IH.
  - unfold start_game_session. case_match; simpl; exact IH.
  - unfold select_avatar_session. case_match; simpl; exact IH.
  - unfold select_strategy_session. case_match; simpl; exact IH.
  - rewrite buy_asset_session_assets. exact IH.
  - rewrite sell_asset_session_assets. exact IH.
  - rewrite use_powerup_session_assets. exact IH.
Qed.

(** X9. In every session of a reachable registry every price is positive
    and every volatility is non-negative: with no event and neutral
    sentiment a price moves by less than 2% per update. *)
Theorem prices_stay_positive (r : registry) (game_id : string)
    (gs : game_state) :
  reachable r -> game_states r !! game_id = Some gs ->
  priced (assets gs).
Proof.
  intros Hr Hgs.
  pose proof (session_reachable_sane gs
                (reachable_sessions r Hr game_id gs Hgs)) as Hs.
  unfold market_sane in Hs. unfold priced.
  rewrite List.Forall_forall in *. intros a Ha.
  destruct (Hs a Ha) as (Hp & Hv & _). split; assumption.
Qed.

Lemma prices_stay_positive_witness : priced (assets finished_session).
Proof.
  exact (prices_stay_positive finished_registry "default" finished_session
           finished_registry_reachable finished_registry_session).
Defined.

(** ** The division in [buy_asset] *)

(** * Trading and the value of a portfolio *)






Lemma holds_assetId aid h : holds aid h = true -> assetId h = aid.
Proof. unfold holds. apply String.eqb_eq. Qed.









(** * The catalog is fixed *)

Lemma update_assets_static ev s rnd (l : list Asset) : forall i,
  List.map asset_static (update_assets ev s rnd i l)
  = List.map asset_static l.
Proof.
  induction l as [|a l IH]; intros i; simpl; [reflexivity|].
  rewrite IH. reflexivity.
Qed.

Lemma push_history_last h p : List.last (push_history h p) 0 = p.
Proof.
  unfold push_history.
  destruct (50 <? List.length (h ++ [p]))%nat eqn:E.
  - destruct h as [|x h]; [discriminate|]. simpl.
    apply List.last_last.
  - apply List.last_last.
Qed.

Lemma update_assets_tracks ev s rnd (l : list Asset) : forall i,
  Forall (fun a => List.last (history a) 0 = currentPrice a)
    (update_assets ev s rnd i l).
Proof.
  induction l as [|a l IH]; intros i; simpl; constructor; [|apply IH].
  simpl. apply push_history_last.
Qed.

Lemma session_reachable_catalog gs :
  session_reachable gs -> catalog_kept gs /\ history_tracks_price gs.
Proof.
  unfold catalog_kept, history_tracks_price.
  induction 1 as [now gid | a b name gs _ IH | now rnd gs _ _ IH | now gs _ IH
                 | a b k gs _ IH | now pid av gs _ IH | now pid st gs _ IH
                 | now pid aid amt gs _ IH | now pid aid amt gs _ IH
                 | now pid pu gs _ IH].
  - split; [reflexivity|]. repeat constructor.
  - unfold join_game_session. case_match; exact IH.
  - unfold get_state_tick. repeat case_match; simpl; try exact IH.
    split; [|apply update_assets_tracks].
    rewrite update_assets_static. exact (proj1 IH).
  - unfold get_state_round_end. case_match; exact IH.
  - unfold start_game_session. case_match; exact IH.
  - unfold select_avatar_session. case_match; exact IH.
  - unfold select_strategy_session. case_match; exact IH.
  - rewrite buy_asset_session_assets. exact IH.
  - rewrite sell_asset_session_assets. exact IH.
  - rewrite use_powerup_session_assets. exact IH.
Qed.

(** * The risk score saturates *)









(** * What a step keeps of the players *)

Lemma session_reachable_inv (P : game_state -> Prop) :
  (forall now game_id, P (create_new_game now game_id)) ->
  (forall gs gs', P gs -> session_step gs gs' -> P gs') ->
  forall gs, session_reachable gs -> P gs.
Proof.
  intros Hnew Hstep.
  induction 1; try (eapply Hstep; [eassumption|constructor]). apply Hnew.
Qed.

Lemma Forall2_same {A : Type} (R : A -> A -> Prop) (l : list A) :
  (forall x, R x x) -> Forall2 R l l.
Proof. intros HR. induction l; constructor; auto. Qed.

Lemma Forall2_map_same {A : Type} (R : A -> A -> Prop) (f : A -> A)
    (l : list A) :
  (forall x, R x (f x)) -> Forall2 R l (List.map f l).
Proof. intros HR. induction l; simpl; constructor; auto. Qed.

Lemma Forall2_update_first {A : Type} (R : A -> A -> Prop) (p : A -> bool)
    (f : A -> A) (l : list A) :
  (forall x, R x x) -> (forall x, In x l -> p x = true -> R x (f x)) ->
  Forall2 R l (Py.update_first p f l).
Proof.
  intros Hrefl. induction l as [|y l IH]; simpl; intros Hf; [constructor|].
  destruct (p y) eqn:Hy.
  - constructor; [apply Hf; auto|apply Forall2_same; exact Hrefl].
  - constructor; [apply Hrefl|]. apply IH. intros x Hx. apply Hf. auto.
Qed.

Lemma powerup_kept_refl u : powerup_kept u u.
Proof. split; [reflexivity|lia]. Qed.

Lemma player_kept_refl p : player_kept p p.
Proof.
  repeat split; [exists []; symmetry; apply List.app_nil_r|].
  apply Forall2_same. exact powerup_kept_refl.
Qed.

Lemma player_kept_same p p' :
  p_id p' = p_id p -> p_name p' = p_name p ->
  transactionLog p' = transactionLog p -> powerUps p' = powerUps p ->
  player_kept p p'.
Proof.
  intros H1 H2 H3 H4. unfold player_kept. rewrite H1, H2, H3, H4.
  apply player_kept_refl.
Qed.

Lemma player_kept_logged p p' t :
  p_id p' = p_id p -> p_name p' = p_name p ->
  transactionLog p' = transactionLog p ++ [t] -> powerUps p' = powerUps p ->
  player_kept p p'.
Proof.
  intros H1 H2 H3 H4. unfold player_kept. rewrite H1, H2, H3, H4.
  repeat split; [exists [t]; reflexivity|].
  apply Forall2_same. exact powerup_kept_refl.
Qed.

(** Writing back a changed copy of the player found under an id. *)
Lemma put_player_rel (R : Player -> Player -> Prop) pid gs p p' :
  (forall x, R x x) ->
  find_player pid (players gs) = Some p -> R p p' ->
  Forall2 R (players gs) (players (put_player pid p' gs)).
Proof.
  intros Hrefl Hp Hk. unfold put_player. simpl.
  revert Hp. unfold find_player.
  induction (players gs) as [|y l IH]; simpl; [constructor|].
  destruct (is_player pid y).
  - intros [= ->]. constructor; [exact Hk|].
    apply Forall2_same. exact Hrefl.
  - intros H. constructor; [apply Hrefl|exact (IH H)].
Qed.

Lemma put_player_kept pid gs p p' :
  find_player pid (players gs) = Some p -> player_kept p p' ->
  Forall2 player_kept (players gs) (players (put_player pid p' gs)).
Proof. apply put_player_rel. exact player_kept_refl. Qed.

Lemma find_name_none name (l : list Player) :
  List.find (fun p => String.eqb (p_name p) name) l = None ->
  ~ In name (List.map p_name l).
Proof.
  intros Hnone Hin. apply in_map_iff in Hin as (p & Hname & Hp).
  pose proof (List.find_none _ _ Hnone p Hp) as Hf. simpl in Hf.
  rewrite Hname, String.eqb_refl in Hf. discriminate.
Qed.

(** One step keeps every player, and adds at most one: the one
    [join_game] creates for a name not yet taken. *)
Lemma session_step_players gs gs' :
  session_step gs gs' ->
  exists l1 l2,
    players gs' = l1 ++ l2
    /\ Forall2 player_kept (players gs) l1
    /\ (l2 = []
        \/ exists id name,
             l2 = [create_player id name]
             /\ issued_at (List.length (players gs)) id
             /\ ~ In name (List.map p_name (players gs))).
Proof.
  assert (Hkeep : forall l l1 : list Player,
            Forall2 player_kept l l1 ->
            exists l1' l2,
              l1 = l1' ++ l2 /\ Forall2 player_kept l l1'
              /\ (l2 = []
                  \/ exists id name,
                       l2 = [create_player id name]
                       /\ issued_at (List.length l) id
                       /\ ~ In name (List.map p_name l))).
  { intros l l1 H. exists l1, [].
    split; [symmetry; apply List.app_nil_r|]. split; [exact H|left; reflexivity]. }
  assert (Hid : forall gs0, Forall2 player_kept (players gs0) (players gs0)).
  { intros gs0. apply Forall2_same. exact player_kept_refl. }
  destruct 1 as [a b name gs | now rnd gs | now gs | a b k gs
                | now pid av gs | now pid st gs
                | now pid aid amt gs | now pid aid amt gs | now pid pu gs].
  - unfold join_game_session.
    destruct (List.find _ (players gs)) as [existing|] eqn:Hfind; simpl.
    + apply Hkeep. exact (Hid gs).
    + eexists (players gs), [_]. split; [reflexivity|].
      split; [exact (Hid gs)|]. right. eexists _, name.
      split; [reflexivity|]. split; [eexists; reflexivity|].
      exact (find_name_none _ _ Hfind).
  - apply Hkeep. unfold get_state_tick. repeat case_match; simpl;
      try exact (Hid gs).
    apply Forall2_map_same. intros p. apply player_kept_same; reflexivity.
  - apply Hkeep. unfold get_state_round_end. case_match; exact (Hid gs).
  - apply Hkeep. unfold start_game_session. case_match; exact (Hid gs).
  - apply Hkeep. unfold select_avatar_session.
    destruct (find_player pid (players gs)) as [p|] eqn:Hp; [|exact (Hid gs)].
    apply (put_player_kept pid gs p _ Hp).
    apply player_kept_same; reflexivity.
  - apply Hkeep. unfold select_strategy_session.
    destruct (find_player pid (players gs)) as [p|] eqn:Hp; [|exact (Hid gs)].
    apply (put_player_kept pid gs p _ Hp).
    apply player_kept_same; reflexivity.
  - apply Hkeep.
    destruct (trade_request_cases pid aid gs)
      as [Hbad | (p & asset & Hp & Ha & Hphase)].
    + rewrite (buy_asset_session_invalid _ _ _ _ _ Hbad). exact (Hid gs).
    + rewrite (buy_asset_session_found _ _ _ _ _ _ _ Hp Ha Hphase).
      destruct (Qle_bool _ _); [|exact (Hid gs)].
      destruct (find_holding aid (holdings p)).
      * destruct (Qeq_bool _ _); simpl;
          apply (put_player_kept pid gs p _ Hp).
        -- apply player_kept_same; reflexivity.
        -- eapply player_kept_logged; reflexivity.
      * simpl. apply (put_player_kept pid gs p _ Hp).
        eapply player_kept_logged; reflexivity.
  - apply Hkeep.
    destruct (trade_request_cases pid aid gs)
      as [Hbad | (p & asset & Hp & Ha & Hphase)].
    + rewrite (sell_asset_session_invalid _ _ _ _ _ Hbad). exact (Hid gs).
    + rewrite (sell_asset_session_found _ _ _ _ _ _ _ Hp Ha Hphase).
      destruct (find_holding aid (holdings p)); [|exact (Hid gs)].
      destruct (Qle_bool _ _); [|exact (Hid gs)].
      simpl. apply (put_player_kept pid gs p _ Hp).
      eapply player_kept_logged; reflexivity.
  - apply Hkeep. unfold use_powerup_session.
    destruct (find_player pid (players gs)) as [p|] eqn:Hp; [|exact (Hid gs)].
    destruct (List.find _ (powerUps p)); [|exact (Hid gs)].
    destruct (_ <=? 0)%Z; [exact (Hid gs)|].
    simpl. apply (put_player_kept pid gs p _ Hp).
    assert (Hpu : Forall2 powerup_kept (powerUps p)
                    (Py.update_first (has_powerup pu)
                       (fun u => set_usesLeft (usesLeft u - 1) u)
                       (powerUps p))).
    { apply Forall2_update_first; [exact powerup_kept_refl|].
      intros u _ _. split; [reflexivity|simpl; lia]. }
    destruct (String.eqb pu "future-glimpse");
      [|destruct (String.eqb pu "market-freeze")];
      (repeat split; [exists []; symmetry; apply List.app_nil_r|exact Hpu]).
Qed.

Lemma Forall2_chain {A : Type} (R : A -> A -> Prop) :
  (forall x y z, R x y -> R y z -> R x z) ->
  forall l1 l2 l3, Forall2 R l1 l2 -> Forall2 R l2 l3 -> Forall2 R l1 l3.
Proof.
  intros HR l1 l2 l3 H. revert l3.
  induction H as [|x y l1 l2 Hxy _ IH]; intros l3 H23;
    inversion H23; subst; constructor; eauto.
Qed.

Lemma powerup_kept_trans u1 u2 u3 :
  powerup_kept u1 u2 -> powerup_kept u2 u3 -> powerup_kept u1 u3.
Proof. intros [H1 H2] [H3 H4]. split; [congruence|lia]. Qed.

Lemma player_kept_trans p1 p2 p3 :
  player_kept p1 p2 -> player_kept p2 p3 -> player_kept p1 p3.
Proof.
  intros (Hi & Hn & (m & Hl) & Hu) (Hi' & Hn' & (m' & Hl') & Hu').
  split; [congruence|]. split; [congruence|]. split.
  - exists (m ++ m'). rewrite Hl', Hl, List.app_assoc. reflexivity.
  - exact (Forall2_chain _ powerup_kept_trans _ _ _ Hu Hu').
Qed.

Lemma Forall2_prefix_chain {A : Type} (R : A -> A -> Prop) :
  (forall x y z, R x y -> R y z -> R x z) ->
  forall l1 l2 l3,
    (exists a b, l2 = a ++ b /\ Forall2 R l1 a) ->
    (exists c d, l3 = c ++ d /\ Forall2 R l2 c) ->
    exists a b, l3 = a ++ b /\ Forall2 R l1 a.
Proof.
  intros HR l1 l2 l3 (a & b & -> & Hab) (c & d & -> & Hcd).
  apply List.Forall2_app_inv_l in Hcd as (c1 & c2 & Hc1 & _ & ->).
  exists c1, (c2 ++ d). split; [symmetry; apply List.app_assoc|].
  exact (Forall2_chain R HR _ _ _ Hab Hc1).
Qed.

Lemma players_kept_trans l1 l2 l3 :
  players_kept l1 l2 -> players_kept l2 l3 -> players_kept l1 l3.
Proof. apply Forall2_prefix_chain. exact player_kept_trans. Qed.

(** X13. However many handler bodies run on a session, no player is
    removed or moved, no id or name changes, every transaction log keeps
    what it had and is only added to at its end, and no power-up gets a
    use back. *)
Theorem players_and_logs_only_grow (gs gs' : game_state) :
  rtc session_step gs gs' -> players_kept (players gs) (players gs').
Proof.
  induction 1 as [gs | gs gs1 gs2 Hstep _ IH].
  - exists (players gs), []. split; [symmetry; apply List.app_nil_r|].
    apply Forall2_same. exact player_kept_refl.
  - apply (players_kept_trans _ (players gs1)); [|exact IH].
    destruct (session_step_players gs gs1 Hstep) as (l1 & l2 & H1 & H2 & _).
    exists l1, l2. split; assumption.
Qed.

Lemma players_and_logs_only_grow_witness :
  players_kept (players demo_session)
    (players (snd (buy_asset_session 1001 "player-0-1000" "AAPL" 5
                     demo_session))).
Proof.
  apply players_and_logs_only_grow. apply rtc_once. constructor.
Defined.

(** * Player ids and names are unique *)

Lemma no_dash_digits d : no_dash (NilEmpty.string_of_uint d).
Proof. induction d; simpl; try split; try discriminate; auto. Qed.

Lemma no_dash_number d : no_dash (NilZero.string_of_uint d).
Proof.
  destruct d; try exact (no_dash_digits _).
  simpl. split; [discriminate|exact I].
Qed.

Lemma no_dash_str (k : nat) : no_dash (Py.str (Z.of_nat k)).
Proof.
  unfold Py.str. destruct (Z.of_nat k) as [|p|p] eqn:E; [| |lia].
  - simpl. split; [discriminate|exact I].
  - exact (no_dash_number _).
Qed.

Lemma append_dash_inj s1 : forall s2 a b,
  no_dash s1 -> no_dash s2 ->
  (s1 ++ String "-" a)%string = (s2 ++ String "-" b)%string -> s1 = s2.
Proof.
  induction s1 as [|c s1 IH]; intros [|c2 s2] a b H1 H2; simpl; intros H.
  - reflexivity.
  - injection H as Hc _. destruct H2 as [Hne _]. congruence.
  - injection H as Hc _. destruct H1 as [Hne _]. congruence.
  - injection H as -> H. f_equal.
    exact (IH s2 a b (proj2 H1) (proj2 H2) H).
Qed.

Lemma to_int_proper z :
  Z.to_int z <> Decimal.Pos Decimal.Nil
  /\ Z.to_int z <> Decimal.Neg Decimal.Nil.
Proof.
  destruct z as [|p|p]; simpl; split; try discriminate;
    intros [= H]; exact (Unsigned.to_uint_nonnil p H).
Qed.

(** [str] on integers can be read back. *)
Lemma str_inj a b : Py.str a = Py.str b -> a = b.
Proof.
  unfold Py.str. intros H. apply (f_equal NilZero.int_of_string) in H.
  destruct (to_int_proper a) as [Ha1 Ha2].
  destruct (to_int_proper b) as [Hb1 Hb2].
  rewrite (NilZero.isi _ Ha1 Ha2), (NilZero.isi _ Hb1 Hb2) in H.
  injection H as H. exact (DecimalZ.to_int_inj _ _ H).
Qed.

Lemma issued_at_inj j k id : issued_at j id -> issued_at k id -> j = k.
Proof.
  intros [t ->] [t' H]. simpl in H. injection H as H.
  apply append_dash_inj in H; [|apply no_dash_str|apply no_dash_str].
  apply str_inj in H. lia.
Qed.

Lemma issued_from_app ids : forall k id,
  issued_from k ids -> issued_at (k + List.length ids) id ->
  issued_from k (ids ++ [id]).
Proof.
  induction ids as [|x ids IH]; intros k id; simpl.
  - rewrite Nat.add_0_r. auto.
  - intros [Hx Hrest] Hid. split; [exact Hx|]. apply IH; [exact Hrest|].
    rewrite Nat.add_succ_comm. exact Hid.
Qed.

Lemma issued_from_In ids : forall k id,
  issued_from k ids -> In id ids ->
  exists j, (k <= j < k + List.length ids)%nat /\ issued_at j id.
Proof.
  induction ids as [|x ids IH]; intros k id; simpl; [tauto|].
  intros [Hx Hrest] [<- | Hin].
  - exists k. split; [lia|exact Hx].
  - destruct (IH (S k) id Hrest Hin) as (j & Hj & Hid).
    exists j. split; [lia|exact Hid].
Qed.

Lemma issued_from_nth ids : forall j k id,
  issued_from j ids -> List.nth_error ids k = Some id -> issued_at (j + k) id.
Proof.
  induction ids as [|x ids IH]; intros j [|k] id; simpl; try discriminate.
  - intros [Hx _] [= <-]. rewrite Nat.add_0_r. exact Hx.
  - intros [_ Hrest] Hk. rewrite <- Nat.add_succ_comm.
    exact (IH (S j) k id Hrest Hk).
Qed.

Lemma issued_from_NoDup ids : forall k, issued_from k ids -> List.NoDup ids.
Proof.
  induction ids as [|x ids IH]; intros k; simpl; [constructor|].
  intros [Hx Hrest]. constructor; [|exact (IH _ Hrest)].
  intros Hin. destruct (issued_from_In ids (S k) x Hrest Hin) as (j & Hj & Hid).
  pose proof (issued_at_inj _ _ _ Hx Hid). lia.
Qed.

Lemma Forall2_kept_maps l l1 :
  Forall2 player_kept l l1 ->
  List.map p_id l1 = List.map p_id l
  /\ List.map p_name l1 = List.map p_name l
  /\ (Forall single_use l -> Forall single_use l1).
Proof.
  induction 1 as [|p p' l l1 (Hi & Hn & _ & Hu) _ (IH1 & IH2 & IH3)]; simpl.
  - repeat split. auto.
  - rewrite Hi, Hn, IH1, IH2. repeat split.
    intros Hs. inversion Hs as [|? ? Hp Hl]; subst.
    constructor; [|exact (IH3 Hl)].
    unfold single_use in *. clear - Hu Hp.
    induction Hu as [|u u' us us' [_ Hle] _ IH]; [constructor|].
    inversion Hp; subst. constructor; [lia|auto].
Qed.

Lemma session_step_wf gs gs' :
  players_wf gs -> session_step gs gs' -> players_wf gs'.
Proof.
  intros (Hids & Hnames & Hsingle) Hstep. unfold players_wf.
  destruct (session_step_players gs gs' Hstep)
    as (l1 & l2 & -> & Hkept & Hnew).
  destruct (Forall2_kept_maps _ _ Hkept) as (Hi & Hn & Hs).
  pose proof (List.Forall2_length Hkept) as Hlen.
  rewrite !List.map_app, Hi, Hn.
  destruct Hnew as [-> | (id & name & -> & Hid & Hfresh)]; simpl.
  - rewrite !List.app_nil_r. auto.
  - split; [|split].
    + apply issued_from_app; [exact Hids|].
      rewrite List.length_map. exact Hid.
    + apply List.NoDup_app; [exact Hnames|repeat constructor; tauto|].
      intros a Ha [<- | []]. exact (Hfresh Ha).
    + apply Forall_app. split; [exact (Hs Hsingle)|].
      repeat constructor; simpl; lia.
Qed.

Lemma session_reachable_wf gs : session_reachable gs -> players_wf gs.
Proof.
  apply session_reachable_inv.
  - intros now gid. repeat split; constructor.
  - exact session_step_wf.
Qed.

Lemma NoDup_map_inj {A B : Type} (f : A -> B) (l : list A) (x y : A) :
  List.NoDup (List.map f l) -> In x l -> In y l -> f x = f y -> x = y.
Proof.
  induction l as [|z l IH]; simpl; [tauto|].
  intros Hnd. inversion Hnd as [|? ? Hz Hl]; subst.
  intros [-> | Hx] [-> | Hy] Hf; auto.
  - exfalso. apply Hz. rewrite Hf. apply List.in_map. exact Hy.
  - exfalso. apply Hz. rewrite <- Hf. apply List.in_map. exact Hx.
Qed.

(** X14. In every session of a reachable registry the player ids are
    pairwise distinct, the names are pairwise distinct, and the id of a
    player finds that player: the player at position [k] carries an id
    [player-k-...], and [str] of two different positions differs. *)
Theorem player_ids_unique (r : registry) (game_id : string)
    (gs : game_state) :
  reachable r -> game_states r !! game_id = Some gs ->
  List.NoDup (List.map p_id (players gs))
  /\ List.NoDup (List.map p_name (players gs))
  /\ (forall k p, List.nth_error (players gs) k = Some p ->
                  issued_at k (p_id p))
  /\ (forall p, In p (players gs) ->
                find_player (p_id p) (players gs) = Some p).
Proof.
  intros Hr Hgs.
  pose proof (reachable_sessions r Hr game_id gs Hgs) as Hs.
  destruct (session_reachable_wf gs Hs) as (Hids & Hnames & _).
  pose proof (issued_from_NoDup _ _ Hids) as Hnd.
  split; [exact Hnd|]. split; [exact Hnames|]. split.
  - intros k p Hk.
    exact (issued_from_nth _ 0 k _ Hids (List.map_nth_error p_id k _ Hk)).
  - intros p Hp. unfold find_player.
    destruct (List.find (is_player (p_id p)) (players gs)) as [q|] eqn:Hq.
    + apply List.find_some in Hq as [Hq Hid]. unfold is_player in Hid.
      apply String.eqb_eq in Hid.
      f_equal. exact (NoDup_map_inj p_id _ q p Hnd Hq Hp Hid).
    + pose proof (List.find_none _ _ Hq p Hp) as Hf. unfold is_player in Hf.
      rewrite String.eqb_refl in Hf. discriminate.
Qed.

Lemma player_ids_unique_witness :
  List.NoDup (List.map p_id (players finished_session)).
Proof.
  exact (proj1 (player_ids_unique finished_registry "default"
                  finished_session finished_registry_reachable
                  finished_registry_session)).
Defined.

Lemma find_app_first {A : Type} (p : A -> bool) (l l' : list A) (x : A) :
  List.find p l = Some x -> List.find p (l ++ l') = Some x.
Proof.
  induction l as [|y l IH]; simpl; [discriminate|].
  destruct (p y); auto.
Qed.

Lemma find_name_fresh name (l : list Player) :
  ~ In name (List.map p_name l) ->
  List.find (fun p => String.eqb (p_name p) name) l = None.
Proof.
  intros Hfresh.
  destruct (List.find _ l) as [q|] eqn:Hq; [|reflexivity].
  apply List.find_some in Hq as [Hq Hname]. simpl in Hname.
  apply String.eqb_eq in Hname. exfalso. apply Hfresh.
  rewrite <- Hname. apply List.in_map. exact Hq.
Qed.

(** X15. Joining a reachable session under a name not yet taken returns
    an id that no player of the session has: reading the session by that
    id gives the new player, who starts with the starting cash and no
    holdings, and every id handed out before still finds its player. *)
Theorem join_returns_fresh_id (r : registry) (game_id : string)
    (gs : game_state) (now_id now_upd : Q) (name : string) :
  reachable r -> game_states r !! game_id = Some gs ->
  ~ In name (List.map p_name (players gs)) ->
  exists id,
    fst (join_game_session now_id now_upd name gs) = Joined id
    /\ find_player id
         (players (snd (join_game_session now_id now_upd name gs)))
       = Some (create_player id name)
    /\ (forall pid p,
          find_player pid (players gs) = Some p ->
          find_player pid
            (players (snd (join_game_session now_id now_upd name gs)))
          = Some p).
Proof.
  intros Hr Hgs Hfresh.
  pose proof (reachable_sessions r Hr game_id gs Hgs) as Hs.
  destruct (session_reachable_wf gs Hs) as (Hids & _ & _).
  unfold join_game_session. rewrite (find_name_fresh _ _ Hfresh).
  set (id := String.append _ _). exists id. simpl.
  split; [reflexivity|]. split.
  - apply (find_app_last (is_player id) (players gs) (create_player id name)).
    + destruct (List.find (is_player id) (players gs)) as [q|] eqn:Hq;
        [|reflexivity].
      apply List.find_some in Hq as [Hq Hid]. unfold is_player in Hid.
      apply String.eqb_eq in Hid.
      assert (Hin : In id (List.map p_id (players gs)))
        by (rewrite <- Hid; apply List.in_map; exact Hq).
      destruct (issued_from_In _ 0 id Hids Hin) as (j & Hj & Hat).
      rewrite List.length_map in Hj.
      assert (Hnew : issued_at (List.length (players gs)) id)
        by (eexists; reflexivity).
      pose proof (issued_at_inj _ _ _ Hat Hnew). lia.
    + unfold is_player. simpl. apply String.eqb_refl.
  - intros pid p Hp. exact (find_app_first _ _ _ _ Hp).
Qed.

Lemma finished_session_no_carol :
  ~ In "Carol" (List.map p_name (players finished_session)).
Proof. vm_compute. intuition discriminate. Qed.

Lemma join_returns_fresh_id_witness :
  exists id,
    fst (join_game_session 1200 1200 "Carol" finished_session) = Joined id
    /\ find_player id
         (players (snd (join_game_session 1200 1200 "Carol"
                          finished_session)))
       = Some (create_player id "Carol")
    /\ (forall pid p,
          find_player pid (players finished_session) = Some p ->
          find_player pid
            (players (snd (join_game_session 1200 1200 "Carol"
                             finished_session)))
          = Some p).
Proof.
  exact (join_returns_fresh_id finished_registry "default" finished_session
           1200 1200 "Carol" finished_registry_reachable
           finished_registry_session finished_session_no_carol).
Defined.

(** * Power-ups *)

(** X16. A power-up works once: in a reachable session, after a
    successful use the same player's next use of the same power-up is
    refused with "Power-up not available" and changes nothing. *)
Theorem powerup_used_once (r : registry) (game_id : string)
    (gs gs1 : game_state) (now now' : Q) (player_id powerup_id : string) :
  reachable r -> game_states r !! game_id = Some gs ->
  use_powerup_session now player_id powerup_id gs = (Success, gs1) ->
  use_powerup_session now' player_id powerup_id gs1
  = (Failure PowerUpUnavailable, gs1).
Proof.
  intros Hr Hgs.
  pose proof (reachable_sessions r Hr game_id gs Hgs) as Hs.
  destruct (session_reachable_wf gs Hs) as (_ & _ & Hsingle).
  unfold use_powerup_session at 1.
  destruct (find_player player_id (players gs)) as [p|] eqn:Hp;
    [|discriminate].
  destruct (List.find (has_powerup powerup_id) (powerUps p)) as [u|] eqn:Hu;
    [|discriminate].
  destruct (usesLeft u <=? 0)%Z eqn:Hleft; [discriminate|].
  apply Z.leb_gt in Hleft.
  assert (Hone : (usesLeft u <= 1)%Z).
  { pose proof (found_Forall _ _ _ _ Hsingle Hp) as Hsp.
    unfold single_use in Hsp. rewrite List.Forall_forall in Hsp.
    apply Hsp. apply List.find_some in Hu. tauto. }
  set (pus := Py.update_first _ _ _).
  assert (Hfind : List.find (has_powerup powerup_id) pus
                  = Some (set_usesLeft (usesLeft u - 1) u)).
  { apply (find_update_first (has_powerup powerup_id)
             (fun u => set_usesLeft (usesLeft u - 1) u) (powerUps p) u Hu).
    apply List.find_some in Hu. tauto. }
  intros [= <-]. unfold use_powerup_session.
  match goal with
  | |- context [put_player player_id ?q gs] =>
      assert (Hq : find_player player_id
                     (players (set_lastUpdate now (put_player player_id q gs)))
                   = Some q /\ powerUps q = pus)
  end.
  { split.
    - simpl. apply (find_put_player _ _ p); [exact Hp|].
      destruct (String.eqb powerup_id "future-glimpse");
        [|destruct (String.eqb powerup_id "market-freeze")]; reflexivity.
    - destruct (String.eqb powerup_id "future-glimpse");
        [|destruct (String.eqb powerup_id "market-freeze")]; reflexivity. }
  destruct Hq as [Hq1 Hq2]. rewrite Hq1, Hq2, Hfind.
  assert (Hz : (usesLeft (set_usesLeft (usesLeft u - 1) u) <=? 0)%Z = true)
    by (apply Z.leb_le; simpl; lia).
  rewrite Hz. reflexivity.
Qed.

Lemma demo_powerup_succeeds :
  use_powerup_session 1001 "player-0-1000" "market-freeze" demo_session
  = (Success,
     snd (use_powerup_session 1001 "player-0-1000" "market-freeze"
            demo_session)).
Proof. vm_compute. reflexivity. Qed.

Lemma powerup_used_once_witness :
  use_powerup_session 1002 "player-0-1000" "market-freeze"
    (snd (use_powerup_session 1001 "player-0-1000" "market-freeze"
            demo_session))
  = (Failure PowerUpUnavailable,
     snd (use_powerup_session 1001 "player-0-1000" "market-freeze"
            demo_session)).
Proof.
  exact (powerup_used_once demo_registry "default" demo_session _ 1001 1002
           "player-0-1000" "market-freeze" demo_registry_reachable
           demo_registry_session demo_powerup_succeeds).
Defined.

(** * Selections *)

(** With distinct ids, the write through the player found is a change of
    that player alone. *)
Lemma update_first_on_player pid (f : Player -> Player) (l : list Player) :
  List.NoDup (List.map p_id l) ->
  Py.update_first (is_player pid) f l = on_player pid f l.
Proof.
  unfold on_player. induction l as [|y l IH]; simpl; [reflexivity|].
  intros Hnd. inversion Hnd as [|? ? Hy Hl]; subst.
  destruct (is_player pid y) eqn:Hpid; [|rewrite (IH Hl); reflexivity].
  f_equal. rewrite <- (List.map_id l) at 1. apply List.map_ext_in.
  intros q Hq. destruct (is_player pid q) eqn:Hq'; [|reflexivity].
  exfalso. apply Hy. unfold is_player in *.
  apply String.eqb_eq in Hpid, Hq'. rewrite Hpid, <- Hq'.
  apply List.in_map. exact Hq.
Qed.

Lemma put_player_on_player pid gs p (f : Player -> Player) :
  List.NoDup (List.map p_id (players gs)) ->
  find_player pid (players gs) = Some p ->
  players (put_player pid (f p) gs) = on_player pid f (players gs).
Proof.
  intros Hnd Hp. unfold put_player. simpl.
  rewrite (update_first_const (is_player pid) f (players gs) p Hp).
  exact (update_first_on_player pid f (players gs) Hnd).
Qed.

Lemma on_player_unknown pid f l :
  find_player pid l = None -> on_player pid f l = l.
Proof.
  intros Hnone. unfold on_player. rewrite <- (List.map_id l) at 2.
  apply List.map_ext_in. intros q Hq.
  rewrite (List.find_none _ _ Hnone q Hq). reflexivity.
Qed.

(** X28. [select_avatar] and [select_strategy] in a reachable session
    set the avatar, or the strategy, of the player with the given id and
    change nothing else of the match: no other player, no other field of
    the player (the risk score is not recomputed), no asset, phase or
    round. Any value is accepted, in any phase, and for an unknown player
    the session is left exactly as it was. *)
Theorem selection_changes_one_field (r : registry) (game_id : string)
    (gs : game_state) (now : Q) (player_id : string) (v : option string) :
  reachable r -> game_states r !! game_id = Some gs ->
  let gs1 := select_avatar_session now player_id v gs in
  let gs2 := select_strategy_session now player_id v gs in
  players gs1 = on_player player_id (set_avatarId v) (players gs)
  /\ players gs2 = on_player player_id (set_strategyId v) (players gs)
  /\ (assets gs1, phase gs1, currentRound gs1, timeRemaining gs1)
     = (assets gs, phase gs, currentRound gs, timeRemaining gs)
  /\ (assets gs2, phase gs2, currentRound gs2, timeRemaining gs2)
     = (assets gs, phase gs, currentRound gs, timeRemaining gs)
  /\ (find_player player_id (players gs) = None -> gs1 = gs /\ gs2 = gs).
Proof.
  intros Hr Hgs. cbv zeta.
  pose proof (reachable_sessions r Hr game_id gs Hgs) as Hs.
  destruct (session_reachable_wf gs Hs) as (Hids & _ & _).
  pose proof (issued_from_NoDup _ _ Hids) as Hnd.
  unfold select_avatar_session, select_strategy_session.
  destruct (find_player player_id (players gs)) as [p|] eqn:Hp.
  - split; [exact (put_player_on_player _ _ _ (set_avatarId v) Hnd Hp)|].
    split; [exact (put_player_on_player _ _ _ (set_strategyId v) Hnd Hp)|].
    split; [reflexivity|]. split; [reflexivity|discriminate].
  - rewrite !(on_player_unknown _ _ _ Hp). repeat split.
Qed.

Lemma selection_changes_one_field_witness :
  players (select_avatar_session 1001 "player-0-1000" (Some "fox")
             demo_session)
  = on_player "player-0-1000" (set_avatarId (Some "fox"))
      (players demo_session).
Proof.
  exact (proj1 (selection_changes_one_field demo_registry "default"
                  demo_session 1001 "player-0-1000" (Some "fox")
                  demo_registry_reachable demo_registry_session)).
Defined.
(** * The registry under requests *)

Lemma get_game_state_cases now game_id r :
  (exists gs,
     game_states r !! game_id = Some gs
     /\ get_game_state now game_id r = (gs, r))
  \/ (game_states r !! game_id = None
      /\ get_game_state now game_id r
         = (create_new_game now game_id,
            mkRegistry
              (<[game_id := create_new_game now game_id]> (game_states r))
              ({[game_id]} ∪ game_locks r))).
Proof.
  unfold get_game_state. destruct (game_states r !! game_id) as [gs|].
  - left. exists gs. split; reflexivity.
  - right. split; reflexivity.
Qed.

Lemma fresh_session_tick now rnd t game_id :
  get_state_tick now rnd (create_new_game t game_id)
  = (None, create_new_game t game_id).
Proof. reflexivity. Qed.

Lemma registry_wf_get now game_id r :
  registry_wf r -> registry_wf (snd (get_game_state now game_id r)).
Proof.
  intros [Hlocks Hfresh].
  destruct (get_game_state_cases now game_id r)
    as [(gs & _ & ->) | (Hnone & ->)]; [split; assumption|].
  split; simpl.
  - intros g Hg. rewrite lookup_insert. case_decide; [eexists; reflexivity|].
    apply Hlocks. apply elem_of_union in Hg as [Hg | Hg]; [|exact Hg].
    apply elem_of_singleton in Hg. congruence.
  - intros g gs. rewrite lookup_insert. case_decide as Heq.
    + intros _ Hg. exfalso. apply Hg. apply elem_of_union_l.
      apply elem_of_singleton. congruence.
    + intros Hgs Hg. apply (Hfresh g gs Hgs).
      intros Hin. apply Hg. apply elem_of_union_r. exact Hin.
Qed.

Lemma registry_wf_store game_id gs r :
  registry_wf r ->
  game_id ∈ game_locks r \/ (exists t, gs = create_new_game t game_id) ->
  registry_wf (store game_id gs r).
Proof.
  intros [Hlocks Hfresh] Hgs. split; simpl.
  - intros g Hg. rewrite lookup_insert. case_decide; [eexists; reflexivity|].
    exact (Hlocks g Hg).
  - intros g gs'. rewrite lookup_insert. case_decide as Heq.
    + intros [= <-] Hg. subst g. destruct Hgs as [Hl | Ht]; [contradiction|].
      exact Ht.
    + apply Hfresh.
Qed.

Lemma get_game_state_lookup now game_id r :
  game_states (snd (get_game_state now game_id r)) !! game_id
  = Some (fst (get_game_state now game_id r)).
Proof.
  destruct (get_game_state_cases now game_id r)
    as [(gs & Hgs & ->) | (Hnone & ->)]; simpl;
    [exact Hgs|apply lookup_insert_eq].
Qed.

(** The registry a request leaves is the one it found, the one
    [get_game_state] made of it, or one of these with the session of
    the request written. *)
Lemma handle_form e q r :
  let game_id := request_game q in
  let r1 := snd (get_game_state (clock e 0) game_id r) in
  (snd (handle e q r) = r /\ always_locks q = false
   /\ exists name, q = Join name game_id)
  \/ snd (handle e q r) = r1
  \/ (exists gs,
        snd (handle e q r) = store game_id gs r1
        /\ (registry_wf r ->
            game_id ∈ game_locks r1
            \/ exists t, gs = create_new_game t game_id))
  \/ (exists t,
        snd (handle e q r) = store game_id (create_new_game t game_id) r).
Proof.
  assert (Hlocked : forall game_id body,
    let r1 := snd (get_game_state (clock e 0) game_id r) in
    let r' := snd (let (gs, r1) := get_game_state (clock e 0) game_id r in
                   with_lock game_id gs r1 body) in
    r' = r1
    \/ (exists gs,
          r' = store game_id gs r1
          /\ (registry_wf r ->
              game_id ∈ game_locks r1
              \/ exists t, gs = create_new_game t game_id))
    \/ (exists t, r' = store game_id (create_new_game t game_id) r)).
  { intros game_id body.
    destruct (get_game_state (clock e 0) game_id r) as [gs r1]. simpl.
    unfold with_lock. case_decide; [|left; reflexivity].
    destruct (body gs) as [o gs']. right. left. exists gs'.
    split; [reflexivity|]. intros _. left. assumption. }
  destruct q; simpl; try (right; apply Hlocked).
  - unfold join_game. destruct (String.eqb name "") eqn:E.
    + left. split; [reflexivity|]. split; [reflexivity|].
      exists name. reflexivity.
    + right. apply Hlocked.
  - right. right. left. unfold get_state.
    pose proof (registry_wf_get (clock e 0) game_id r) as Hwf1.
    pose proof (get_game_state_lookup (clock e 0) game_id r) as Hlook.
    destruct (get_game_state (clock e 0) game_id r) as [gs r1]. simpl in *.
    assert (Hfresh : registry_wf r -> (game_id ∉ game_locks r1) ->
                     exists t, gs = create_new_game t game_id).
    { intros Hwf Hno. destruct (Hwf1 Hwf) as [_ Hf].
      exact (Hf game_id gs Hlook Hno). }
    destruct (decide (game_id ∈ game_locks r1)) as [Hin | Hno].
    + destruct (get_state_tick (clock e 1) (rnd e) gs) as [tr gs1].
      destruct (round_ended tr).
      * unfold with_lock. simpl. rewrite decide_True by exact Hin. simpl.
        eexists. split; [apply store_store|]. intros _. left. exact Hin.
      * eexists. split; [reflexivity|]. intros _. left. exact Hin.
    + exists (snd (get_state_tick (clock e 1) (rnd e) gs)). split.
      * destruct (get_state_tick (clock e 1) (rnd e) gs) as [tr gs1].
        destruct (round_ended tr); [|reflexivity].
        unfold with_lock. simpl. rewrite decide_False by exact Hno.
        reflexivity.
      * intros Hwf. right. destruct (Hfresh Hwf Hno) as [t ->].
        exists t. reflexivity.
  - right. right. right. eexists. reflexivity.
  - right. left. unfold get_results.
    destruct (get_game_state (clock e 0) game_id r). reflexivity.
Qed.

Lemma handle_wf e q r : registry_wf r -> registry_wf (snd (handle e q r)).
Proof.
  intros Hwf.
  pose proof (registry_wf_get (clock e 0) (request_game q) r Hwf) as Hwf1.
  destruct (handle_form e q r)
    as [(-> & _) | [-> | [(gs & -> & Hgs) | (t & ->)]]].
  - exact Hwf.
  - exact Hwf1.
  - apply registry_wf_store; [exact Hwf1|exact (Hgs Hwf)].
  - apply registry_wf_store; [exact Hwf|]. right. exists t. reflexivity.
Qed.

Lemma registry_wf_empty : registry_wf empty_registry.
Proof.
  split; simpl.
  - intros g Hg. apply elem_of_empty in Hg. contradiction.
  - intros g gs. rewrite lookup_empty. discriminate.
Qed.

Lemma reachable_wf r : reachable r -> registry_wf r.
Proof.
  induction 1 as [|e q r _ _ IH]; [exact registry_wf_empty|].
  apply handle_wf. exact IH.
Qed.

Lemma get_game_state_frame now game_id r g :
  g <> game_id ->
  game_states (snd (get_game_state now game_id r)) !! g = game_states r !! g
  /\ (g ∈ game_locks (snd (get_game_state now game_id r))
      <-> g ∈ game_locks r).
Proof.
  intros Hne.
  destruct (get_game_state_cases now game_id r)
    as [(gs & _ & ->) | (Hnone & ->)]; simpl; [tauto|].
  split; [apply lookup_insert_ne; congruence|].
  rewrite elem_of_union, elem_of_singleton. tauto.
Qed.

Lemma store_frame game_id gs r g :
  g <> game_id ->
  game_states (store game_id gs r) !! g = game_states r !! g.
Proof. intros Hne. simpl. apply lookup_insert_ne. congruence. Qed.

(** X17. Sessions do not interfere: a request about one game id leaves
    the session and the lock of every other game id as they were. *)
Theorem sessions_isolated (e : env) (q : request) (r : registry)
    (game_id : string) :
  game_id <> request_game q ->
  game_states (snd (handle e q r)) !! game_id = game_states r !! game_id
  /\ (game_id ∈ game_locks (snd (handle e q r))
      <-> game_id ∈ game_locks r).
Proof.
  intros Hne.
  destruct (get_game_state_frame (clock e 0) (request_game q) r game_id Hne)
    as [H1 H2].
  destruct (handle_form e q r)
    as [(-> & _) | [-> | [(gs & -> & _) | (t & ->)]]].
  - tauto.
  - tauto.
  - rewrite (store_frame _ _ _ _ Hne). simpl. tauto.
  - rewrite (store_frame _ _ _ _ Hne). simpl. tauto.
Qed.

Lemma sessions_isolated_witness :
  game_states
    (snd (handle (demo_env 1200) (Reset "default") demo_registry)) !! "other"
  = game_states demo_registry !! "other".
Proof.
  apply (sessions_isolated (demo_env 1200) (Reset "default") demo_registry
           "other").
  discriminate.
Defined.

Lemma get_game_state_keeps now game_id r :
  (forall g, is_Some (game_states r !! g) ->
             is_Some (game_states (snd (get_game_state now game_id r)) !! g))
  /\ (forall g, g ∈ game_locks r ->
                g ∈ game_locks (snd (get_game_state now game_id r)))
  /\ (forall g, g ∈ game_locks (snd (get_game_state now game_id r)) ->
                g ∈ game_locks r
                \/ (g = game_id /\ game_states r !! g = None)).
Proof.
  destruct (get_game_state_cases now game_id r)
    as [(gs & _ & ->) | (Hnone & ->)]; simpl; [tauto|].
  split; [|split].
  - intros g Hg. rewrite lookup_insert. case_decide; [eexists; reflexivity|].
    exact Hg.
  - intros g Hg. apply elem_of_union_r. exact Hg.
  - intros g Hg. apply elem_of_union in Hg as [Hg | Hg]; [|tauto].
    apply elem_of_singleton in Hg. subst g. tauto.
Qed.

Lemma store_keeps game_id gs r g :
  is_Some (game_states r !! g) ->
  is_Some (game_states (store game_id gs r) !! g).
Proof.
  intros Hg. simpl. rewrite lookup_insert.
  case_decide; [eexists; reflexivity|exact Hg].
Qed.

Lemma handle_keeps e q r :
  (forall g, is_Some (game_states r !! g) ->
             is_Some (game_states (snd (handle e q r)) !! g))
  /\ (forall g, g ∈ game_locks r -> g ∈ game_locks (snd (handle e q r)))
  /\ (forall g, g ∈ game_locks (snd (handle e q r)) ->
                g ∈ game_locks r
                \/ (g = request_game q /\ game_states r !! g = None)).
Proof.
  destruct (get_game_state_keeps (clock e 0) (request_game q) r)
    as (K1 & K2 & K3).
  destruct (handle_form e q r)
    as [(-> & _) | [-> | [(gs & -> & _) | (t & ->)]]].
  - tauto.
  - tauto.
  - split; [intros g Hg; apply store_keeps, K1, Hg|]. tauto.
  - split; [intros g Hg; apply store_keeps, Hg|]. simpl. tauto.
Qed.

(** X18. Sessions and locks are only ever added: no request removes a
    session or a lock (a reset replaces the session), a lock appears only
    together with the first session of its game id, and every request but
    a join without a name leaves a session under its game id, also the
    two GET requests. *)
Theorem sessions_never_removed (e : env) (q : request) (r : registry) :
  (forall g, is_Some (game_states r !! g) ->
             is_Some (game_states (snd (handle e q r)) !! g))
  /\ (forall g, g ∈ game_locks r -> g ∈ game_locks (snd (handle e q r)))
  /\ (forall g, g ∈ game_locks (snd (handle e q r)) ->
                g ∈ game_locks r
                \/ (g = request_game q /\ game_states r !! g = None))
  /\ ((forall game_id, q <> Join "" game_id) ->
      is_Some (game_states (snd (handle e q r)) !! request_game q)).
Proof.
  destruct (handle_keeps e q r) as (K1 & K2 & K3).
  split; [exact K1|]. split; [exact K2|]. split; [exact K3|].
  pose proof (get_game_state_lookup (clock e 0) (request_game q) r) as Hlook.
  destruct (handle_form e q r)
    as [(_ & Hq & name & Hname) | [-> | [(gs & -> & _) | (t & ->)]]].
  - intros Hnot. exfalso. rewrite Hname in Hq. simpl in Hq.
    apply negb_false_iff, String.eqb_eq in Hq. subst name.
    exact (Hnot _ Hname).
  - intros _. rewrite Hlook. eexists. reflexivity.
  - intros _. simpl. rewrite lookup_insert_eq. eexists. reflexivity.
  - intros _. simpl. rewrite lookup_insert_eq. eexists. reflexivity.
Qed.

(** What the bodies run under the lock return. *)
Lemma body_never_key_error e q gs :
  match q with
  | Join name _ =>
      fst (join_game_session (clock e 1) (clock e 2) name gs)
  | Buy player_id asset_id amount _ =>
      fst (buy_asset_session (clock e 1) player_id asset_id amount gs)
  | Sell player_id asset_id amount _ =>
      fst (sell_asset_session (clock e 1) player_id asset_id amount gs)
  | UsePowerUp player_id powerup_id _ =>
      fst (use_powerup_session (clock e 1) player_id powerup_id gs)
  | _ => Success
  end <> Raised KeyError.
Proof.
  destruct q; try discriminate.
  - unfold join_game_session. case_match; discriminate.
  - unfold buy_asset_session. repeat case_match; discriminate.
  - unfold sell_asset_session. repeat case_match; discriminate.
  - unfold use_powerup_session. repeat case_match; discriminate.
Qed.

Lemma with_lock_key_error game_id gs r body :
  fst (body gs) <> Raised KeyError ->
  fst (with_lock game_id gs r body) = Raised KeyError
  <-> (game_id ∉ game_locks r).
Proof.
  intros Hbody. unfold with_lock. case_decide as Hin.
  - destruct (body gs) as [o gs']. simpl in *. tauto.
  - simpl. tauto.
Qed.

Lemma locked_handler_key_error now game_id r body :
  (forall gs, fst (body gs) <> Raised KeyError) ->
  fst (let (gs, r1) := get_game_state now game_id r in
       with_lock game_id gs r1 body) = Raised KeyError
  <-> is_Some (game_states r !! game_id) /\ (game_id ∉ game_locks r).
Proof.
  intros Hbody.
  destruct (get_game_state_cases now game_id r)
    as [(gs & Hgs & ->) | (Hnone & ->)].
  - rewrite (with_lock_key_error _ _ _ _ (Hbody gs)), Hgs.
    split; [intros H; split; [eexists; reflexivity|exact H]|tauto].
  - rewrite (with_lock_key_error _ _ _ _ (Hbody _)), Hnone. simpl.
    split; [intros H; exfalso; apply H; apply elem_of_union_l;
            apply elem_of_singleton; reflexivity|].
    intros [[x Hx] _]. discriminate.
Qed.

Lemma get_state_outcome e game_id r :
  registry_wf r ->
  get_state e game_id r
  = (Success,
     store game_id
       (get_state_session (clock e 1) (clock e 2) (rnd e)
          (fst (get_game_state (clock e 0) game_id r)))
       (snd (get_game_state (clock e 0) game_id r))).
Proof.
  intros Hwf. unfold get_state, get_state_session.
  pose proof (registry_wf_get (clock e 0) game_id r Hwf) as [_ Hfresh].
  pose proof (get_game_state_lookup (clock e 0) game_id r) as Hlook.
  destruct (get_game_state (clock e 0) game_id r) as [gs r1]. simpl in *.
  destruct (decide (game_id ∈ game_locks r1)) as [Hin | Hno].
  - destruct (get_state_tick (clock e 1) (rnd e) gs) as [tr gs1].
    destruct (round_ended tr); [|reflexivity].
    rewrite with_lock_known by exact Hin. simpl.
    rewrite store_store. reflexivity.
  - destruct (Hfresh game_id gs Hlook Hno) as [t ->].
    rewrite fresh_session_tick. reflexivity.
Qed.

(** X19. In a reachable registry a request raises KeyError exactly when
    its handler always enters [with game_locks[game_id]] and the game id
    has a session but no lock, which is what [reset_game] leaves of an id
    it is the first to use. [get_state], [get_results], [reset_game] and
    a join without a name never raise it. *)
Theorem key_error_iff (e : env) (q : request) (r : registry) :
  reachable r ->
  fst (handle e q r) = Raised KeyError
  <-> always_locks q = true
      /\ is_Some (game_states r !! request_game q)
      /\ (request_game q ∉ game_locks r).
Proof.
  intros Hr. pose proof (reachable_wf r Hr) as Hwf.
  pose proof (fun gs => body_never_key_error e q gs) as Hbody.
  destruct q; simpl in *;
    try (unfold start_game, select_avatar, select_strategy, buy_asset,
           sell_asset, use_powerup;
         rewrite locked_handler_key_error by exact Hbody; tauto).
  - unfold join_game. destruct (String.eqb name "") eqn:E; simpl.
    + split; [discriminate|]. intros [H _]. discriminate.
    + rewrite locked_handler_key_error by exact Hbody. tauto.
  - rewrite (get_state_outcome e game_id r Hwf). simpl.
    split; [discriminate|]. intros [H _]. discriminate.
  - split; [discriminate|]. intros [H _]. discriminate.
  - unfold get_results.
    destruct (get_game_state (clock e 0) game_id r) as [gs r1]. simpl.
    unfold get_results_session.
    split; [destruct (negb _); discriminate|]. intros [H _]. discriminate.
Qed.

Lemma reset_registry_reachable :
  reachable (snd (handle (demo_env 1) (Reset "fresh") empty_registry)).
Proof. constructor; [apply demo_env_draws|constructor]. Qed.

Lemma key_error_iff_witness :
  fst (handle (demo_env 2) (Join "Alice" "fresh")
         (snd (handle (demo_env 1) (Reset "fresh") empty_registry)))
  = Raised KeyError
  <-> always_locks (Join "Alice" "fresh") = true
      /\ is_Some
           (game_states
              (snd (handle (demo_env 1) (Reset "fresh") empty_registry))
            !! "fresh")
      /\ ("fresh"
          ∉ game_locks
              (snd (handle (demo_env 1) (Reset "fresh") empty_registry))).
Proof.
  exact (key_error_iff (demo_env 2) (Join "Alice" "fresh") _
           reset_registry_reachable).
Defined.



(** X21. A game id that [reset_game] was the first to use is lost for
    good: whatever requests follow, it never gets a lock and its session
    stays a fresh one, so no player can ever join it and it can never be started. *)
Theorem lockless_session_is_stuck (r : registry) (game_id : string)
    (gs : game_state) (l : list (env * request)) :
  reachable r ->
  game_states r !! game_id = Some gs -> (game_id ∉ game_locks r) ->
  (game_id ∉ game_locks (serve l r))
  /\ exists t,
       game_states (serve l r) !! game_id = Some (create_new_game t game_id).
Proof.
  intros Hr Hgs Hno. pose proof (reachable_wf r Hr) as Hwf. clear Hr.
  assert (Hsome : is_Some (game_states r !! game_id))
    by (eexists; exact Hgs).
  clear Hgs. revert r Hwf Hsome Hno.
  induction l as [|[e q] l IH]; intros r Hwf Hsome Hno; simpl.
  - split; [exact Hno|]. destruct Hsome as [gs' Hgs'].
    destruct (proj2 Hwf game_id gs' Hgs' Hno) as [t ->].
    exists t. exact Hgs'.
  - destruct (handle_keeps e q r) as (K1 & _ & K3).
    apply IH; [apply handle_wf; exact Hwf|exact (K1 _ Hsome)|].
    intros Hin. destruct (K3 _ Hin) as [Hin' | [_ Hnone]]; [tauto|].
    destruct Hsome as [x Hx]. congruence.
Qed.

Lemma reset_registry_session :
  game_states (snd (handle (demo_env 1) (Reset "fresh") empty_registry))
    !! "fresh"
  = Some (create_new_game 1 "fresh").
Proof. vm_compute. reflexivity. Qed.

Lemma reset_registry_lockless :
  "fresh" ∉ game_locks
              (snd (handle (demo_env 1) (Reset "fresh") empty_registry)).
Proof. simpl. apply not_elem_of_empty. Qed.

Lemma lockless_session_is_stuck_witness :
  "fresh"
  ∉ game_locks
      (serve [ (demo_env 2, Join "Alice" "fresh");
               (demo_env 3, GetState "fresh") ]
         (snd (handle (demo_env 1) (Reset "fresh") empty_registry))).
Proof.
  exact (proj1 (lockless_session_is_stuck _ "fresh" _
                  [ (demo_env 2, Join "Alice" "fresh");
                    (demo_env 3, GetState "fresh") ]
                  reset_registry_reachable reset_registry_session
                  reset_registry_lockless)).
Defined.

(** * Starting the match *)

Lemma start_game_session_scenario now_start now_upd pick gs :
  phase gs = PRE_MATCH ->
  exists sc,
    In sc SCENARIOS
    /\ activeScenario (start_game_session now_start now_upd pick gs)
       = Some sc.
Proof.
  intros Hphase. unfold start_game_session. rewrite Hphase.
  change (List.length SCENARIOS) with 3%nat.
  assert (Hlt : (pick mod 3 < 3)%nat) by (apply Nat.mod_upper_bound; lia).
  generalize dependent (pick mod 3)%nat. intros k Hlt.
  destruct k as [|[|[|n]]]; simpl;
    [eexists; split; [|reflexivity]; simpl; tauto ..|lia].
Qed.

(** X22. [start_game] for a game id that has its lock, or no session
    yet, answers with the state and leaves a session that is not in
    PRE_MATCH: a PRE_MATCH session (a fresh one for an unknown id, with
    or without players) goes to PLAYING at round 1 with the full timer,
    the round start at the clock reading and one of the three scenarios;
    a session already started is left as it was, so a second start does
    not restart the match. *)
Theorem start_game_contract (e : env) (game_id : string) (r : registry) :
  game_id ∈ game_locks r \/ game_states r !! game_id = None ->
  let gs0 := fst (get_game_state (clock e 0) game_id r) in
  exists gs',
    fst (start_game e game_id r) = Success
    /\ game_states (snd (start_game e game_id r)) !! game_id = Some gs'
    /\ phase gs' <> PRE_MATCH
    /\ (phase gs0 = PRE_MATCH ->
        phase gs' = PLAYING
        /\ currentRound gs' = 1%Z
        /\ timeRemaining gs' = TOTAL_FRAMES
        /\ roundStartTime gs' = Some (clock e 1)
        /\ (exists sc, In sc SCENARIOS /\ activeScenario gs' = Some sc)
        /\ players gs' = players gs0
        /\ assets gs' = assets gs0)
    /\ (phase gs0 <> PRE_MATCH -> gs' = gs0).
Proof.
  intros Hlock. cbv zeta.
  exists (start_game_session (clock e 1) (clock e 2) (pick e)
            (fst (get_game_state (clock e 0) game_id r))).
  assert (Hin : game_id ∈ game_locks (snd (get_game_state (clock e 0)
                                              game_id r))).
  { destruct (get_game_state_cases (clock e 0) game_id r)
      as [(gs & Hgs & ->) | (Hnone & ->)]; simpl.
    - destruct Hlock as [H | H]; [exact H|congruence].
    - apply elem_of_union_l. apply elem_of_singleton. reflexivity. }
  unfold start_game.
  destruct (get_game_state (clock e 0) game_id r) as [gs r1]. simpl in *.
  rewrite with_lock_known by exact Hin. simpl.
  split; [reflexivity|]. split; [apply lookup_insert_eq|].
  split; [|split].
  - unfold start_game_session.
    destruct (phase gs) eqn:Hphase; simpl; congruence.
  - intros Hphase.
    pose proof (start_game_session_scenario (clock e 1) (clock e 2) (pick e)
                  gs Hphase) as Hsc.
    unfold start_game_session in *. rewrite Hphase in *. simpl in *.
    repeat split. exact Hsc.
  - intros Hphase. unfold start_game_session.
    destruct (phase gs); [contradiction|reflexivity|reflexivity].
Qed.

Lemma start_game_contract_witness :
  exists gs',
    fst (start_game (demo_env 1000) "new" empty_registry) = Success
    /\ game_states (snd (start_game (demo_env 1000) "new" empty_registry))
         !! "new" = Some gs'
    /\ phase gs' <> PRE_MATCH.
Proof.
  destruct (start_game_contract (demo_env 1000) "new" empty_registry)
    as (gs' & H1 & H2 & H3 & _).
  - right. apply lookup_empty.
  - exists gs'. split; [exact H1|]. split; [exact H2|exact H3].
Defined.
(** * The catalog *)

Lemma find_asset_none_iff aid (l : list Asset) :
  find_asset aid l = None <-> ~ In aid (List.map a_id l).
Proof.
  unfold find_asset. split.
  - intros Hnone Hin. apply in_map_iff in Hin as (a & Hid & Ha).
    pose proof (List.find_none _ _ Hnone a Ha) as Hf. unfold is_asset in Hf.
    rewrite Hid, String.eqb_refl in Hf. discriminate.
  - intros Hnot. destruct (List.find (is_asset aid) l) as [a|] eqn:Hf;
      [|reflexivity].
    apply List.find_some in Hf as [Ha Hid]. unfold is_asset in Hid.
    apply String.eqb_eq in Hid. exfalso. apply Hnot. rewrite <- Hid.
    apply List.in_map. exact Ha.
Qed.

Lemma catalog_kept_ids gs :
  catalog_kept gs ->
  List.map a_id (assets gs) = ["AAPL"; "BTC"; "GOVT"; "SPY"].
Proof.
  unfold catalog_kept. intros Hc.
  apply (f_equal (List.map (fun t => fst (fst (fst (fst t)))))) in Hc.
  rewrite !List.map_map in Hc. exact Hc.
Qed.

(** X23. In every session of a reachable registry the assets are the
    four of the catalog, in its order, with its names, types,
    volatilities and trend biases: only prices and histories move. The
    last entry of each history is the current price, and a trade fails
    for an unknown asset exactly when the asset id is not one of the
    four. *)
Theorem catalog_is_fixed (r : registry) (game_id : string)
    (gs : game_state) :
  reachable r -> game_states r !! game_id = Some gs ->
  List.map asset_static (assets gs) = List.map asset_static INITIAL_ASSETS
  /\ Forall (fun a => List.last (history a) 0 = currentPrice a) (assets gs)
  /\ (forall asset_id,
        find_asset asset_id (assets gs) = None
        <-> ~ In asset_id ["AAPL"; "BTC"; "GOVT"; "SPY"]).
Proof.
  intros Hr Hgs.
  pose proof (reachable_sessions r Hr game_id gs Hgs) as Hs.
  destruct (session_reachable_catalog gs Hs) as [Hc Hh].
  split; [exact Hc|]. split; [exact Hh|].
  intros aid. rewrite find_asset_none_iff, (catalog_kept_ids gs Hc). tauto.
Qed.

Lemma catalog_is_fixed_witness :
  List.map asset_static (assets finished_session)
  = List.map asset_static INITIAL_ASSETS.
Proof.
  exact (proj1 (catalog_is_fixed finished_registry "default"
                  finished_session finished_registry_reachable
                  finished_registry_session)).
Defined.

(** * A sell of a negative amount *)




(** * After the match *)

Lemma player_frozen_refl p : player_frozen p p.
Proof. repeat split. Qed.

Lemma player_frozen_trans p1 p2 p3 :
  player_frozen p1 p2 -> player_frozen p2 p3 -> player_frozen p1 p3.
Proof.
  intros (A1 & A2 & A3 & A4) (B1 & B2 & B3 & B4).
  repeat split; congruence.
Qed.

Lemma session_frozen_same gs gs' :
  phase gs' = FINISHED -> assets gs' = assets gs ->
  Forall2 player_frozen (players gs) (players gs') ->
  session_frozen gs gs'.
Proof.
  intros H1 H2 H3. split; [exact H1|]. split; [exact H2|].
  exists (players gs'), []. split; [symmetry; apply List.app_nil_r|exact H3].
Qed.

Lemma finished_step gs gs' :
  phase gs = FINISHED -> session_step gs gs' -> session_frozen gs gs'.
Proof.
  intros Hphase.
  assert (Hnot : phase gs <> PLAYING) by congruence.
  assert (Hid : Forall2 player_frozen (players gs) (players gs))
    by (apply Forall2_same; exact player_frozen_refl).
  assert (Hsame : session_frozen gs gs)
    by (apply session_frozen_same; [exact Hphase|reflexivity|exact Hid]).
  destruct 1 as [a b name gs | now rnd gs | now gs | a b k gs
                | now pid av gs | now pid st gs
                | now pid aid amt gs | now pid aid amt gs | now pid pu gs].
  - unfold join_game_session.
    destruct (List.find _ (players gs)); simpl.
    + apply session_frozen_same; [exact Hphase|reflexivity|exact Hid].
    + split; [exact Hphase|]. split; [reflexivity|].
      eexists (players gs), [_]. split; [reflexivity|exact Hid].
  - unfold get_state_tick. rewrite Hphase.
    destruct (roundStartTime gs); exact Hsame.
  - unfold get_state_round_end.
    destruct (currentRound gs <? maxRounds gs)%Z;
      (apply session_frozen_same; [|reflexivity|exact Hid]);
      [exact Hphase|reflexivity].
  - unfold start_game_session. rewrite Hphase. exact Hsame.
  - unfold select_avatar_session.
    destruct (find_player pid (players gs)) as [p|] eqn:Hp; [|exact Hsame].
    apply session_frozen_same; [exact Hphase|reflexivity|].
    apply (put_player_rel _ pid gs p _ player_frozen_refl Hp).
    repeat split.
  - unfold select_strategy_session.
    destruct (find_player pid (players gs)) as [p|] eqn:Hp; [|exact Hsame].
    apply session_frozen_same; [exact Hphase|reflexivity|].
    apply (put_player_rel _ pid gs p _ player_frozen_refl Hp).
    repeat split.
  - rewrite buy_asset_session_invalid by auto. exact Hsame.
  - rewrite sell_asset_session_invalid by auto. exact Hsame.
  - unfold use_powerup_session.
    destruct (find_player pid (players gs)) as [p|] eqn:Hp; [|exact Hsame].
    destruct (List.find _ (powerUps p)); [|exact Hsame].
    destruct (_ <=? 0)%Z; [exact Hsame|].
    apply session_frozen_same; [exact Hphase|reflexivity|].
    apply (put_player_rel _ pid gs p _ player_frozen_refl Hp).
    destruct (String.eqb pu "future-glimpse");
      [|destruct (String.eqb pu "market-freeze")]; repeat split.
Qed.

Lemma session_frozen_trans gs1 gs2 gs3 :
  session_frozen gs1 gs2 -> session_frozen gs2 gs3 -> session_frozen gs1 gs3.
Proof.
  intros (_ & A2 & A3) (B1 & B2 & B3).
  split; [exact B1|]. split; [congruence|].
  exact (Forall2_prefix_chain _ player_frozen_trans _ _ _ A3 B3).
Qed.

(** X25. FINISHED is final for the books: whatever handler bodies run
    on a finished session, it stays FINISHED, no price moves, and every
    player keeps the holdings, the total value and the transaction log
    of the end of the match; buys and sells are refused and the results
    stay available. (Cash, risk score, strategy and avatar can still be
    changed by power-ups and selections, and players can still join.) *)
Theorem finished_is_final (gs gs' : game_state) :
  phase gs = FINISHED -> rtc session_step gs gs' ->
  session_frozen gs gs'
  /\ (forall now player_id asset_id amount,
        buy_asset_session now player_id asset_id amount gs'
        = (Failure InvalidRequest, gs')
        /\ sell_asset_session now player_id asset_id amount gs'
           = (Failure InvalidRequest, gs'))
  /\ exists l, get_results_session gs' = Results l.
Proof.
  intros Hphase Hrun.
  assert (Hfrozen : session_frozen gs gs').
  { induction Hrun as [gs | gs gs1 gs2 Hstep _ IH].
    - apply session_frozen_same; [exact Hphase|reflexivity|].
      apply Forall2_same. exact player_frozen_refl.
    - pose proof (finished_step gs gs1 Hphase Hstep) as H1.
      exact (session_frozen_trans _ _ _ H1 (IH (proj1 H1))). }
  split; [exact Hfrozen|]. destruct Hfrozen as (Hfin & _).
  assert (Hnot : phase gs' <> PLAYING) by congruence.
  split.
  - intros now pid aid amount.
    rewrite buy_asset_session_invalid, sell_asset_session_invalid by auto.
    split; reflexivity.
  - unfold get_results_session. rewrite Hfin. simpl. eexists. reflexivity.
Qed.

Lemma finished_is_final_witness :
  session_frozen finished_session
    (snd (use_powerup_session 1200 "player-0-1000" "market-freeze"
            finished_session)).
Proof.
  apply (finished_is_final finished_session).
  - exact finished_session_finished.
  - apply rtc_once. constructor.
Defined.

(** * The books *)

Lemma session_reachable_started gs :
  session_reachable gs -> phase gs = PRE_MATCH \/ (1 <= currentRound gs)%Z.
Proof.
  induction 1 as [now gid | a b name gs _ IH | now rnd gs _ _ IH | now gs Hs IH
                 | a b k gs _ IH | now pid av gs _ IH | now pid st gs _ IH
                 | now pid aid amt gs _ IH | now pid aid amt gs _ IH
                 | now pid pu gs _ IH].
  - left. reflexivity.
  - unfold join_game_session. case_match; exact IH.
  - unfold get_state_tick. repeat case_match; exact IH.
  - destruct (session_reachable_round gs Hs) as [Hmax Hrange].
    unfold get_state_round_end.
    destruct (currentRound gs <? maxRounds gs)%Z eqn:E; simpl.
    + right. lia.
    + right. apply Z.ltb_ge in E. rewrite Hmax in E. unfold GAME_ROUNDS in E.
      lia.
  - unfold start_game_session. case_match; simpl; [right; lia|exact IH].
  - unfold select_avatar_session. case_match; exact IH.
  - unfold select_strategy_session. case_match; exact IH.
  - unfold buy_asset_session. repeat case_match; exact IH.
  - unfold sell_asset_session. repeat case_match; exact IH.
  - unfold use_powerup_session. repeat case_match; exact IH.
Qed.

(** The record of a trade made in a reachable session is sound, and the
    traded asset is one of the catalog. *)
Lemma trade_record_sound gs ty aid asset amount :
  session_reachable gs -> phase gs = PLAYING ->
  find_asset aid (assets gs) = Some asset ->
  record_sound (trade_record gs ty aid asset amount
                  (amount * currentPrice asset))
  /\ In aid catalog_ids.
Proof.
  intros Hs Hphase Ha.
  destruct (session_reachable_round gs Hs) as [Hmax Hrange].
  destruct (session_reachable_started gs Hs) as [Hpre | Hone];
    [congruence|].
  pose proof (session_reachable_sane gs Hs) as Hsane.
  destruct (session_reachable_catalog gs Hs) as [Hcat _].
  pose proof (List.find_some _ _ Ha) as [Hin Hid].
  unfold is_asset in Hid. apply String.eqb_eq in Hid.
  unfold market_sane in Hsane. rewrite List.Forall_forall in Hsane.
  destruct (Hsane asset Hin) as [Hprice _].
  assert (Hcatalog : exists a, In a INITIAL_ASSETS
                               /\ a_id a = aid /\ a_type a = a_type asset).
  { apply (List.in_map asset_static) in Hin. rewrite Hcat in Hin.
    apply in_map_iff in Hin as (a0 & Heq & Ha0).
    exists a0. split; [exact Ha0|].
    unfold asset_static in Heq. injection Heq as H1 _ H3 _ _.
    split; congruence. }
  split.
  - split; [reflexivity|]. split; [exact Hprice|]. simpl.
    split; [rewrite <- Hmax; lia|exact Hcatalog].
  - destruct Hcatalog as (a0 & Ha0 & Hid0 & _). rewrite <- Hid0.
    apply List.in_map. exact Ha0.
Qed.

Lemma update_first_ids p f hs :
  (forall h, assetId (f h) = assetId h) ->
  Forall (fun h => In (assetId h) catalog_ids) hs ->
  Forall (fun h => In (assetId h) catalog_ids) (Py.update_first p f hs).
Proof.
  intros Hf Hhs. apply update_first_Forall; [exact Hhs|].
  intros h _ Hh. rewrite Hf. exact Hh.
Qed.

Lemma holdings_after_buy_catalog aid amount price hs :
  In aid catalog_ids ->
  Forall (fun h => In (assetId h) catalog_ids) hs ->
  Forall (fun h => In (assetId h) catalog_ids)
    (holdings_after_buy aid amount price hs).
Proof.
  intros Haid Hhs. unfold holdings_after_buy.
  destruct (find_holding aid hs).
  - apply update_first_ids; [reflexivity|exact Hhs].
  - apply Forall_app. split; [exact Hhs|].
    constructor; [exact Haid|constructor].
Qed.

Lemma holdings_after_sell_catalog aid amount hs :
  Forall (fun h => In (assetId h) catalog_ids) hs ->
  Forall (fun h => In (assetId h) catalog_ids)
    (holdings_after_sell aid amount hs).
Proof.
  intros Hhs. unfold holdings_after_sell.
  destruct (find_holding aid hs); [|exact Hhs].
  destruct (Qeq_bool _ 0).
  - rewrite List.Forall_forall in *. intros x Hx.
    apply List.filter_In in Hx. apply Hhs. tauto.
  - apply update_first_ids; [reflexivity|exact Hhs].
Qed.

Lemma session_reachable_books gs :
  session_reachable gs -> Forall books_sound (players gs).
Proof.
  induction 1 as [now gid | a b name gs _ IH | now rnd gs _ _ IH | now gs _ IH
                 | a b k gs _ IH | now pid av gs _ IH | now pid st gs _ IH
                 | now pid aid amt gs Hs IH | now pid aid amt gs Hs IH
                 | now pid pu gs _ IH].
  - constructor.
  - unfold join_game_session. case_match; simpl; [exact IH|].
    apply Forall_app. split; [exact IH|]. repeat constructor.
  - unfold get_state_tick. repeat case_match; simpl; try exact IH.
    rewrite List.Forall_forall in *. intros p Hp.
    apply in_map_iff in Hp as (p0 & <- & Hp0). exact (IH p0 Hp0).
  - unfold get_state_round_end. case_match; exact IH.
  - unfold start_game_session. case_match; exact IH.
  - unfold select_avatar_session.
    destruct (find_player pid (players gs)) eqn:Hp; [|exact IH].
    apply put_player_Forall; [exact IH|].
    exact (found_Forall _ _ _ _ IH Hp).
  - unfold select_strategy_session.
    destruct (find_player pid (players gs)) eqn:Hp; [|exact IH].
    apply put_player_Forall; [exact IH|].
    exact (found_Forall _ _ _ _ IH Hp).
  - destruct (trade_request_cases pid aid gs)
      as [Hbad | (player & asset & Hp & Ha & Hphase)].
    + rewrite (buy_asset_session_invalid _ _ _ _ _ Hbad). exact IH.
    + rewrite (buy_asset_session_found _ _ _ _ _ _ _ Hp Ha Hphase).
      destruct (found_Forall _ _ _ _ IH Hp) as [Hlog Hhs].
      destruct (trade_record_sound gs BUY aid asset amt Hs Hphase Ha)
        as [Hrec Haid].
      assert (Hbought : books_sound (after_buy gs player aid asset amt)).
      { split; simpl.
        - apply Forall_app. split; [exact Hlog|].
          constructor; [exact Hrec|constructor].
        - apply holdings_after_buy_catalog; assumption. }
      destruct (Qle_bool _ _); [|exact IH].
      destruct (find_holding aid (holdings player)).
      * destruct (Qeq_bool _ _); simpl;
          (apply put_player_Forall; [exact IH|]); [|exact Hbought].
        split; simpl; [exact Hlog|].
        apply update_first_ids; [reflexivity|exact Hhs].
      * simpl. apply put_player_Forall; [exact IH|exact Hbought].
  - destruct (trade_request_cases pid aid gs)
      as [Hbad | (player & asset & Hp & Ha & Hphase)].
    + rewrite (sell_asset_session_invalid _ _ _ _ _ Hbad). exact IH.
    + rewrite (sell_asset_session_found _ _ _ _ _ _ _ Hp Ha Hphase).
      destruct (found_Forall _ _ _ _ IH Hp) as [Hlog Hhs].
      destruct (trade_record_sound gs SELL aid asset amt Hs Hphase Ha)
        as [Hrec _].
      destruct (find_holding aid (holdings player)); [|exact IH].
      destruct (Qle_bool _ _); [|exact IH].
      simpl. apply put_player_Forall; [exact IH|]. split; simpl.
      * apply Forall_app. split; [exact Hlog|].
        constructor; [exact Hrec|constructor].
      * apply holdings_after_sell_catalog. exact Hhs.
  - unfold use_powerup_session.
    destruct (find_player pid (players gs)) eqn:Hp; [|exact IH].
    destruct (List.find _ _); [|exact IH].
    destruct (_ <=? 0)%Z; [exact IH|].
    apply put_player_Forall; [exact IH|].
    pose proof (found_Forall _ _ _ _ IH Hp) as Hb.
    destruct (String.eqb pu "future-glimpse"); [exact Hb|].
    destruct (String.eqb pu "market-freeze"); exact Hb.
Qed.

(** X26. The transaction logs of a reachable session can be trusted:
    every record of every player has [totalValue = amount * price] with a
    positive price, was taken in one of the rounds 1 to 5, and names an
    asset of the catalog together with its type. *)
Theorem transaction_log_is_sound (r : registry) (game_id : string)
    (gs : game_state) (p : Player) (t : Transaction) :
  reachable r -> game_states r !! game_id = Some gs ->
  In p (players gs) -> In t (transactionLog p) ->
  record_sound t.
Proof.
  intros Hr Hgs Hp Ht.
  pose proof (reachable_sessions r Hr game_id gs Hgs) as Hs.
  pose proof (session_reachable_books gs Hs) as Hb.
  rewrite List.Forall_forall in Hb. destruct (Hb p Hp) as [Hlog _].
  rewrite List.Forall_forall in Hlog. exact (Hlog t Ht).
Qed.

Lemma traded_session_player :
  In (first_player traded_session) (players traded_session).
Proof. vm_compute. left. reflexivity. Qed.

Lemma traded_session_record :
  In (trade_record demo_session BUY "AAPL" AAPL 5 (5 * 150))
    (transactionLog (first_player traded_session)).
Proof. vm_compute. left. reflexivity. Qed.

Lemma transaction_log_is_sound_witness :
  record_sound (trade_record demo_session BUY "AAPL" AAPL 5 (5 * 150)).
Proof.
  exact (transaction_log_is_sound traded_registry "default" traded_session
           (first_player traded_session) _ traded_registry_reachable
           traded_registry_session traded_session_player
           traded_session_record).
Defined.

Lemma catalog_ids_NoDup : List.NoDup catalog_ids.
Proof.
  unfold catalog_ids. simpl.
  repeat (constructor; [simpl; intuition discriminate|]). constructor.
Qed.

Lemma find_holding_held aid hs :
  is_Some (find_holding aid hs) <-> In aid (List.map assetId hs).
Proof.
  split.
  - intros [h Hh]. apply List.find_some in Hh as [Hin Hid].
    apply holds_assetId in Hid. rewrite <- Hid. apply List.in_map. exact Hin.
  - intros Hin. destruct (find_holding aid hs) as [h|] eqn:Hh;
      [eexists; reflexivity|].
    exfalso. exact (find_holding_not_held _ _ Hh Hin).
Qed.

(** X27. The DIVERSIFIER test of [get_results] in a reachable session:
    a player never has more than four holdings, the number of distinct
    asset ids held is the number of holdings, and it reaches 4 exactly
    when the player has a holding of each of the four catalog assets
    (whatever the quantities). *)
Theorem diversifier_needs_all_four (r : registry) (game_id : string)
    (gs : game_state) (p : Player) :
  reachable r -> game_states r !! game_id = Some gs ->
  In p (players gs) ->
  Py.count_distinct (List.map assetId (holdings p))
  = List.length (holdings p)
  /\ (List.length (holdings p) <= 4)%nat
  /\ ((4 <= Py.count_distinct (List.map assetId (holdings p)))%nat
      <-> forall asset_id,
            In asset_id ["AAPL"; "BTC"; "GOVT"; "SPY"] ->
            is_Some (find_holding asset_id (holdings p))).
Proof.
  intros Hr Hgs Hp.
  pose proof (reachable_sessions r Hr game_id gs Hgs) as Hs.
  pose proof (session_reachable_one_holding gs Hs) as Hone.
  pose proof (session_reachable_books gs Hs) as Hbooks.
  unfold one_holding_per_asset in Hone.
  rewrite List.Forall_forall in Hone, Hbooks.
  pose proof (Hone p Hp) as Hnd. destruct (Hbooks p Hp) as [_ Hcat].
  assert (Hincl : incl (List.map assetId (holdings p)) catalog_ids).
  { intros aid Hin. apply in_map_iff in Hin as (h & <- & Hh).
    rewrite List.Forall_forall in Hcat. exact (Hcat h Hh). }
  assert (Hcount : Py.count_distinct (List.map assetId (holdings p))
                   = List.length (holdings p)).
  { unfold Py.count_distinct.
    rewrite (List.nodup_fixed_point string_dec Hnd).
    apply List.length_map. }
  pose proof (List.NoDup_incl_length Hnd Hincl) as Hlen.
  rewrite List.length_map in Hlen.
  split; [exact Hcount|]. split; [exact Hlen|].
  rewrite Hcount. split.
  - intros Hfour aid Haid. apply find_holding_held.
    assert (Hlen' : (List.length catalog_ids
                     <= List.length (List.map assetId (holdings p)))%nat)
      by (rewrite List.length_map; exact Hfour).
    exact (List.NoDup_length_incl Hnd Hlen' Hincl aid Haid).
  - intros Hall.
    assert (Hback : incl catalog_ids (List.map assetId (holdings p))).
    { intros aid Haid. apply find_holding_held. exact (Hall aid Haid). }
    pose proof (List.NoDup_incl_length catalog_ids_NoDup Hback) as H4.
    rewrite List.length_map in H4. exact H4.
Qed.

Lemma diversifier_needs_all_four_witness :
  (List.length (holdings (first_player traded_session)) <= 4)%nat.
Proof.
  exact (proj1 (proj2 (diversifier_needs_all_four traded_registry "default"
                         traded_session (first_player traded_session)
                         traded_registry_reachable traded_registry_session
                         traded_session_player))).
Defined.
